(** * earlyoom, [meminfo.c]: reading /proc/meminfo and /proc/[pid]/stat

    A shallow embedding of [get_entry], [get_entry_fatal],
    [available_guesstimate], [parse_meminfo] and [is_alive], with the C
    library routines they call ([strstr], [strtol], [fscanf]) written out
    over lists of characters. *)

From Stdlib Require Import ZArith List Ascii String Bool Lia.
Import ListNotations.

Local Open Scope Z_scope.

(** ** C strings *)

Definition cstring := list ascii.

(** A string literal of the source. *)
Definition str (s : string) : cstring := list_ascii_of_string s.

Definition NUL : ascii := Ascii.zero.

Definition newline : ascii := "010"%char.

Definition is_nul (c : ascii) : bool := Ascii.eqb c NUL.

(** The C string held by a [char] array: the bytes before the first NUL. *)
Fixpoint c_str (bytes : list ascii) : cstring :=
  match bytes with
  | [] => []
  | c :: rest => if is_nul c then [] else c :: c_str rest
  end.

Definition strlen (s : cstring) : nat := List.length s.

Fixpoint starts_with (needle hay : cstring) : bool :=
  match needle, hay with
  | [], _ => true
  | _ :: _, [] => false
  | a :: needle', b :: hay' => Ascii.eqb a b && starts_with needle' hay'
  end.

(** [strstr(hay, needle)]: the suffix of [hay] beginning at the first
    occurrence of [needle], [None] for the NULL pointer. *)
Fixpoint strstr (hay needle : cstring) : option cstring :=
  if starts_with needle hay then Some hay
  else match hay with
       | [] => None
       | _ :: hay' => strstr hay' needle
       end.

(** ** Machine integers of the LP64 target *)

Definition LONG_MAX : Z := 2 ^ 63 - 1.
Definition LONG_MIN : Z := - 2 ^ 63.
Definition INT_MAX : Z := 2 ^ 31 - 1.
Definition INT_MIN : Z := - 2 ^ 31.

Definition in_long (z : Z) : bool := (LONG_MIN <=? z) && (z <=? LONG_MAX).

(** Conversion of a [long] to an [int] field: reduction modulo 2^32 into the
    signed range, identity on values that fit. *)
Definition int_of_long (z : Z) : Z := (z + 2 ^ 31) mod 2 ^ 32 - 2 ^ 31.

(** ** [strtol(s, NULL, 10)] *)

Definition ERANGE : Z := 34.
Definition EINVAL : Z := 22.

(** [isspace] in the C locale. *)
Definition isspace (c : ascii) : bool :=
  let n := N_of_ascii c in
  (n =? 32)%N || ((9 <=? n)%N && (n <=? 13)%N).

Definition isdigit (c : ascii) : bool :=
  let n := N_of_ascii c in
  (48 <=? n)%N && (n <=? 57)%N.

Definition digit_val (c : ascii) : Z := Z.of_N (N_of_ascii c) - 48.

(** The longest prefix of [s] whose characters satisfy [p], and the rest. *)
Fixpoint span (p : ascii -> bool) (s : cstring) : cstring * cstring :=
  match s with
  | c :: s' =>
      if p c then let (run, rest) := span p s' in (c :: run, rest)
      else ([], s)
  | [] => ([], [])
  end.

Definition skip_space (s : cstring) : cstring := snd (span isspace s).

(** The number written by a run of decimal digits. *)
Definition decimal (ds : cstring) : Z :=
  fold_left (fun acc c => 10 * acc + digit_val c) ds 0.

Definition minus_sign : ascii := "-"%char.
Definition plus_sign : ascii := "+"%char.

(** The optional sign: [true] for a leading minus. *)
Definition read_sign (s : cstring) : bool * cstring :=
  match s with
  | c :: s' =>
      if Ascii.eqb c minus_sign then (true, s')
      else if Ascii.eqb c plus_sign then (false, s')
      else (false, s)
  | [] => (false, s)
  end.

(** ** Process state and outcomes *)

(** What the functions print, one constructor per call site. *)
Inductive output : Type :=
| perror_strtol
| fatal_message (code : Z)
| guesstimate_warning
| warn_fscanf_failed
| debug_process_state (c : ascii).

(** The static variables of [parse_meminfo] ([fd] as "is not NULL") and
    the diagnostics printed so far, oldest first. *)
Record globals : Type := mkGlobals {
  fd : bool;
  guesstimate_warned : Z;
  printed : list output
}.

Definition startup : globals :=
  {| fd := false; guesstimate_warned := 0; printed := [] |}.

(** The ways a call can leave the behaviour C defines. *)
Inductive undefined_behaviour : Type :=
| signed_overflow
| division_by_zero
| uninitialised_read
| missing_argument.

(** A call returns, ends the process through [exit], or has no defined
    behaviour. *)
Inductive outcome (A : Type) : Type :=
| Returns (a : A) (g : globals)
| Exits (code : Z) (g : globals)
| Undefined (why : undefined_behaviour).

Arguments Returns {A} a g.
Arguments Exits {A} code g.
Arguments Undefined {A} why.

Definition M (A : Type) : Type := globals -> outcome A.

Definition ret {A} (a : A) : M A := fun g => Returns a g.

Definition bind {A B} (m : M A) (k : A -> M B) : M B :=
  fun g =>
    match m g with
    | Returns a g' => k a g'
    | Exits code g' => Exits code g'
    | Undefined why => Undefined why
    end.

Notation "x <- m ;; k" := (bind m (fun x => k))
  (at level 61, m at next level, right associativity).
Notation "m ;;; k" := (bind m (fun _ => k))
  (at level 61, right associativity).

Definition log (o : output) (g : globals) : globals :=
  {| fd := fd g;
     guesstimate_warned := guesstimate_warned g;
     printed := printed g ++ [o] |}.

Definition print (o : output) : M unit := fun g => Returns tt (log o g).

Definition percent_sign : ascii := "%"%char.

(** The conversions of a [printf] format: every [%] but those of [%%]. *)
Fixpoint conversions (fmt : cstring) : nat :=
  match fmt with
  | c :: rest =>
      if Ascii.eqb c percent_sign then
        match rest with
        | d :: rest' =>
            if Ascii.eqb d percent_sign then conversions rest'
            else S (conversions rest')
        | [] => 0%nat
        end
      else conversions rest
  | [] => 0%nat
  end.

(** The text [strerror(errno)] gives; which text it is plays no part. *)
Definition strerror_errno : cstring := str "strerror(errno)".

(** Modelled from the spec: [fatal] of msg.c, which is not among the
    sources: it prints its message and terminates the whole process with
    the given exit status. The message is formatted as [printf] does, from
    the format and the arguments that the call passes after it, as lines
    70 and 76 do for their [%s]; a conversion of the format for which the
    call passes no argument has no defined behaviour. *)
Definition fatal {A} (code : Z) (fmt : cstring) (args : list cstring)
  : M A :=
  fun g =>
    if (List.length args <? conversions fmt)%nat
    then Undefined missing_argument
    else Exits code (log (fatal_message code) g).

(** Modelled from the spec: [warn] of msg.c, which is not among the
    sources: a non-fatal warning is printed and the caller goes on. *)
Definition warn (o : output) : M unit := print o.

(** Modelled from the spec: [debug] of msg.c, which is not among the
    sources: a diagnostic is printed and the caller goes on. *)
Definition debug (o : output) : M unit := print o.

(** Arithmetic on [long]: a result outside the type has no defined
    behaviour, and neither has a division by zero. Division truncates
    toward zero. *)
Definition undefined {A} (why : undefined_behaviour) : M A :=
  fun _ => Undefined why.

Definition long_result (z : Z) : M Z :=
  if in_long z then ret z else undefined signed_overflow.

Definition long_add (a b : Z) : M Z := long_result (a + b).
Definition long_sub (a b : Z) : M Z := long_result (a - b).
Definition long_mul (a b : Z) : M Z := long_result (a * b).
Definition long_div (a b : Z) : M Z :=
  if b =? 0 then undefined division_by_zero else long_result (Z.quot a b).

(** The value [strtol] returns for the number [v] it has read, and [errno]
    afterwards: values outside [long] saturate and set ERANGE. *)
Definition saturate (v : Z) : Z * Z :=
  if v <? LONG_MIN then (LONG_MIN, ERANGE)
  else if LONG_MAX <? v then (LONG_MAX, ERANGE)
  else (v, 0).

Section Libc.

(** What [strtol] leaves in [errno] when no digits could be converted:
    ISO C allows EINVAL or no change; 0 stands for no change (glibc). *)
Variable noconv_errno : Z.

(** The value returned and the value of [errno] afterwards, [errno] being 0
    at the call. *)
Definition strtol (s : cstring) : Z * Z :=
  let (neg, s1) := read_sign (skip_space s) in
  match fst (span isdigit s1) with
  | [] => (0, noconv_errno)
  | ds => saturate (if neg then - decimal ds else decimal ds)
  end.

(** [get_entry], lines 20-34. *)
Definition get_entry (name buf : cstring) : M Z :=
  match strstr buf name with
  | None => ret (-1)
  | Some hit =>
      let (val, errno) := strtol (skipn (strlen name) hit) in
      if negb (errno =? 0) then
        print perror_strtol ;;; ret (-1)
      else ret val
  end.

(** [get_entry_fatal], lines 37-44. The call of [fatal] at line 41 passes
    the format alone. *)
Definition get_entry_fatal (name buf : cstring) : M Z :=
  val <- get_entry name buf ;;
  (if val =? -1 then
     fatal 104
       (str "could not find entry '%s' in /proc/meminfo" ++ [newline]) []
   else ret tt) ;;;
  ret val.

(** [available_guesstimate], lines 48-56. *)
Definition available_guesstimate (buf : cstring) : M Z :=
  Cached <- get_entry_fatal (str "Cached:") buf ;;
  MemFree <- get_entry_fatal (str "MemFree:") buf ;;
  Buffers <- get_entry_fatal (str "Buffers:") buf ;;
  Shmem <- get_entry_fatal (str "Shmem:") buf ;;
  t1 <- long_add MemFree Cached ;;
  t2 <- long_add t1 Buffers ;;
  long_sub t2 Shmem.

(** Modelled from the spec: [meminfo_t] of meminfo.h, which is not among
    the sources: the snapshot record, with the field names [parse_meminfo]
    assigns. The two totals in kiB hold the [long] results of
    [get_entry_fatal]; the other fields are the [int]s that
    [print_mem_stats] prints with [%d]. *)
Record meminfo_t : Type := mkMeminfo {
  MemTotalKiB : Z;
  MemTotalMiB : Z;
  MemAvailableMiB : Z;
  SwapTotalMiB : Z;
  SwapTotalKiB : Z;
  SwapFreeMiB : Z;
  MemAvailablePercent : Z;
  SwapFreePercent : Z
}.

(** /proc/meminfo as one call finds it: whether [fopen] succeeds, and the
    bytes the file holds when read from the start. *)
Record meminfo_file : Type := mkFile {
  can_open : bool;
  contents : list ascii
}.

(** [sizeof(buf)], line 64. *)
Definition sizeof_buf : nat := Z.to_nat 8192.

Definition set_fd (b : bool) (g : globals) : globals :=
  {| fd := b;
     guesstimate_warned := guesstimate_warned g;
     printed := printed g |}.

Definition set_guesstimate_warned (z : Z) (g : globals) : globals :=
  {| fd := fd g;
     guesstimate_warned := z;
     printed := printed g |}.

(** What [fread(buf, 1, sizeof(buf) - 1, fd)] stores, line 74. *)
Definition fread (f : meminfo_file) : list ascii :=
  firstn (sizeof_buf - 1) (contents f).

(** Lines 67-77: open once, rewind, read into the zeroed buffer. The
    result is the C string the buffer holds. *)
Definition read_meminfo (f : meminfo_file) : M cstring :=
  fun g =>
    let g1 := if fd g then g else set_fd (can_open f) g in
    if negb (fd g1) then
      fatal 102 (str "could not open /proc/meminfo: %s" ++ [newline])
        [strerror_errno] g1
    else
      let bytes := fread f in
      let len := Z.of_nat (List.length bytes) in
      if len =? 0 then
        fatal 102 (str "could not read /proc/meminfo: %s" ++ [newline])
          [strerror_errno] g1
      else Returns (c_str bytes) g1.

(** Lines 86-90: the warning, guarded by the static flag. *)
Definition warn_guesstimate : M unit :=
  fun g =>
    if guesstimate_warned g =? 0 then
      (print guesstimate_warning ;;;
       (fun g' => Returns tt (set_guesstimate_warned 1 g'))) g
    else Returns tt g.

(** Lines 85-90: the body of [if (MemAvailable == -1)]. *)
Definition fallback (buf : cstring) : M Z :=
  MemAvailable <- available_guesstimate buf ;;
  warn_guesstimate ;;;
  ret MemAvailable.

(** Lines 83-91: the MemAvailable field, or the estimate. *)
Definition mem_available (buf : cstring) : M Z :=
  MemAvailable <- get_entry (str "MemAvailable:") buf ;;
  if MemAvailable =? -1 then fallback buf else ret MemAvailable.

(** Lines 93-107: percentages and MiB values. *)
Definition snapshot (MemTotal SwapTotal SwapFree MemAvailable : Z)
  : M meminfo_t :=
  p <- long_mul MemAvailable 100 ;;
  MemAvailablePercent' <- long_div p MemTotal ;;
  SwapFreePercent' <-
    (if 0 <? SwapTotal then
       q <- long_mul SwapFree 100 ;;
       long_div q SwapTotal
     else ret 0) ;;
  MemTotalMiB' <- long_div MemTotal 1024 ;;
  MemAvailableMiB' <- long_div MemAvailable 1024 ;;
  SwapTotalMiB' <- long_div SwapTotal 1024 ;;
  SwapFreeMiB' <- long_div SwapFree 1024 ;;
  ret {| MemTotalKiB := MemTotal;
         MemTotalMiB := int_of_long MemTotalMiB';
         MemAvailableMiB := int_of_long MemAvailableMiB';
         SwapTotalMiB := int_of_long SwapTotalMiB';
         SwapTotalKiB := SwapTotal;
         SwapFreeMiB := int_of_long SwapFreeMiB';
         MemAvailablePercent := int_of_long MemAvailablePercent';
         SwapFreePercent := int_of_long SwapFreePercent' |}.

(** [parse_meminfo], lines 58-108. *)
Definition parse_meminfo (f : meminfo_file) : M meminfo_t :=
  buf <- read_meminfo f ;;
  MemTotal <- get_entry_fatal (str "MemTotal:") buf ;;
  SwapTotal <- get_entry_fatal (str "SwapTotal:") buf ;;
  SwapFree <- get_entry_fatal (str "SwapFree:") buf ;;
  MemAvailable <- mem_available buf ;;
  snapshot MemTotal SwapTotal SwapFree MemAvailable.

(** The value [get_entry] returns for a label; the globals have no part
    in it. *)
Definition entry (name buf : cstring) : Z :=
  match get_entry name buf startup with
  | Returns val _ => val
  | _ => -1
  end.

End Libc.

(** ** [is_alive] and its [fscanf] *)

(** One directive of a [scanf] format applied to the input: it succeeds and
    leaves the rest of the input, or fails on unsuitable input, or fails
    because the input ended. *)
Inductive scan (A : Type) : Type :=
| Matched (a : A) (rest : list ascii)
| Matching_failure
| Input_failure.

Arguments Matched {A} a rest.
Arguments Matching_failure {A}.
Arguments Input_failure {A}.

(** [%*d]: white space, an optional sign, at least one digit. *)
Definition scan_skip_d (s : list ascii) : scan unit :=
  match skip_space s with
  | [] => Input_failure
  | s1 =>
      let (_, s2) := read_sign s1 in
      match span isdigit s2 with
      | ([], []) => Input_failure
      | ([], _ :: _) => Matching_failure
      | (_ :: _, rest) => Matched tt rest
      end
  end.

(** [%*s]: white space, then the longest run without white space. *)
Definition scan_skip_s (s : list ascii) : scan unit :=
  match skip_space s with
  | [] => Input_failure
  | s1 => Matched tt (snd (span (fun c => negb (isspace c)) s1))
  end.

(** [%c]: the next character, white space included. *)
Definition scan_c (s : list ascii) : scan ascii :=
  match s with
  | [] => Input_failure
  | c :: rest => Matched c rest
  end.

Definition EOF : Z := -1.

(** [fscanf(f, "%*d %*s %c", &state)]: the value returned and, when an item
    was assigned, the character stored in [state]. *)
Definition fscanf_d_s_c (s : list ascii) : Z * option ascii :=
  match scan_skip_d s with
  | Matched _ s1 =>
      match scan_skip_s (skip_space s1) with
      | Matched _ s2 =>
          match scan_c (skip_space s2) with
          | Matched c _ => (1, Some c)
          | Matching_failure => (0, None)
          | Input_failure => (EOF, None)
          end
      | Matching_failure => (0, None)
      | Input_failure => (EOF, None)
      end
  | Matching_failure => (0, None)
  | Input_failure => (EOF, None)
  end.

(** The files /proc/[pid]/stat: [None] where [fopen] fails. *)
Definition procfs : Type := Z -> option (list ascii).

Definition zombie : ascii := "Z"%char.

(** [is_alive], lines 110-135. *)
Definition is_alive (proc : procfs) (pid : Z) : M bool :=
  match proc pid with
  | None => ret false
  | Some f =>
      let (res, state) := fscanf_d_s_c f in
      if res <? 1 then
        warn warn_fscanf_failed ;;; ret false
      else
        match state with
        | Some c =>
            debug (debug_process_state c) ;;;
            if Ascii.eqb c zombie then ret false else ret true
        | None => undefined uninitialised_read
        end
  end.

(** ** A process lifetime *)

(** The calls a host makes, in order; the run stops when the process
    exits or leaves defined behaviour. *)
Inductive call : Type :=
| call_parse_meminfo (f : meminfo_file)
| call_is_alive (proc : procfs) (pid : Z).

Definition do_call (noconv_errno : Z) (c : call) : M unit :=
  match c with
  | call_parse_meminfo f => parse_meminfo noconv_errno f ;;; ret tt
  | call_is_alive proc pid => is_alive proc pid ;;; ret tt
  end.

Fixpoint run (noconv_errno : Z) (calls : list call) : M unit :=
  match calls with
  | [] => ret tt
  | c :: calls' => do_call noconv_errno c ;;; run noconv_errno calls'
  end.

Definition is_guesstimate_warning (o : output) : bool :=
  match o with
  | guesstimate_warning => true
  | _ => false
  end.

(** How often the fallback warning has been printed. *)
Definition warnings (g : globals) : nat :=
  List.length (filter is_guesstimate_warning (printed g)).

(** A step that leaves the warning flag and the count of warnings as they
    were. *)
Definition quiet (g g' : globals) : Prop :=
  guesstimate_warned g' = guesstimate_warned g /\ warnings g' = warnings g.

(** The flag is set exactly when the warning has been printed, and it has
    been printed once. *)
Definition warned_once (g : globals) : Prop :=
  (guesstimate_warned g = 0 /\ warnings g = 0%nat) \/
  (guesstimate_warned g = 1 /\ warnings g = 1%nat).

(** The globals after lines 86-90. *)
Definition warned (g : globals) : globals :=
  if guesstimate_warned g =? 0
  then set_guesstimate_warned 1 (log guesstimate_warning g)
  else g.

(** ** The words of the specification *)

(** The label is in the blob as a substring. *)
Definition occurs (label blob : cstring) : Prop :=
  exists pre post, blob = pre ++ label ++ post.

(** [pre ++ label ++ post] splits the blob at the first occurrence of the
    label. *)
Definition first_occurrence (label blob pre post : cstring) : Prop :=
  blob = pre ++ label ++ post /\
  forall pre' post', blob = pre' ++ label ++ post' ->
                     (List.length pre <= List.length pre')%nat.

Inductive sign_text : cstring -> Z -> Prop :=
| sign_none : sign_text [] 1
| sign_plus : sign_text [plus_sign] 1
| sign_minus : sign_text [minus_sign] (-1).

Definition no_digit_ahead (s : cstring) : Prop :=
  match s with
  | [] => True
  | c :: _ => isdigit c = false
  end.

(** The text starts, after optional white space, with an optionally signed
    decimal integer of value [v], taken as long as it goes. *)
Definition integer_text (s : cstring) (v : Z) : Prop :=
  exists ws sg k ds tl,
    s = ws ++ sg ++ ds ++ tl /\
    Forall (fun c => isspace c = true) ws /\
    sign_text sg k /\
    ds <> [] /\
    Forall (fun c => isdigit c = true) ds /\
    no_digit_ahead tl /\
    v = k * decimal ds.

(** The blob carries the field: the first occurrence of the label is
    followed by the integer [v]. *)
Definition field (label blob : cstring) (v : Z) : Prop :=
  exists pre post, first_occurrence label blob pre post /\ integer_text post v.

(** The fallback estimate as the specification words it:
    MemFree + Cached + Buffers - Shmem. *)
Definition estimate (noconv_errno : Z) (buf : cstring) : Z :=
  let e := entry noconv_errno in
  e (str "MemFree:") buf + e (str "Cached:") buf
  + e (str "Buffers:") buf - e (str "Shmem:") buf.

(** One of the four entries of the estimate is not found. *)
Definition estimate_missing (noconv_errno : Z) (buf : cstring) : bool :=
  let e := entry noconv_errno in
  (e (str "Cached:") buf =? -1) || (e (str "MemFree:") buf =? -1)
  || (e (str "Buffers:") buf =? -1) || (e (str "Shmem:") buf =? -1).

(** The sums of the estimate stay within [long]. *)
Definition estimate_in_long (noconv_errno : Z) (buf : cstring) : bool :=
  let e := entry noconv_errno in
  in_long (e (str "MemFree:") buf + e (str "Cached:") buf)
  && in_long (e (str "MemFree:") buf + e (str "Cached:") buf
              + e (str "Buffers:") buf)
  && in_long (estimate noconv_errno buf).

(** One of MemTotal, SwapTotal and SwapFree is not found. *)
Definition mandatory_missing (noconv_errno : Z) (buf : cstring) : bool :=
  let e := entry noconv_errno in
  (e (str "MemTotal:") buf =? -1) || (e (str "SwapTotal:") buf =? -1)
  || (e (str "SwapFree:") buf =? -1).

(** The source cannot be opened, or yields zero bytes. *)
Definition unreadable (f : meminfo_file) (g : globals) : bool :=
  negb (fd g || can_open f) || (Z.of_nat (List.length (fread f)) =? 0).

(** The available memory as the specification words it: the MemAvailable
    entry, or, when that is not found, the estimate. *)
Definition available_kib (noconv_errno : Z) (buf : cstring) : Z :=
  if entry noconv_errno (str "MemAvailable:") buf =? -1
  then estimate noconv_errno buf
  else entry noconv_errno (str "MemAvailable:") buf.

(** ** Sample files *)

Definition text (lines : list string) : list ascii :=
  flat_map (fun l => str l ++ [newline]) lines.

Definition readable (bytes : list ascii) : meminfo_file :=
  {| can_open := true; contents := bytes |}.

(** A kernel with MemAvailable. *)
Definition meminfo_recent : list ascii :=
  text [ "MemTotal:       16384 kB"; "MemFree:         1000 kB";
         "MemAvailable:    8192 kB"; "Buffers:          200 kB";
         "Cached:          3000 kB"; "SwapCached:         0 kB";
         "SwapTotal:       2048 kB"; "SwapFree:        1024 kB";
         "Shmem:            100 kB" ]%string.

(** A kernel before 3.14: no MemAvailable. *)
Definition meminfo_old : list ascii :=
  text [ "MemTotal:        1000 kB"; "MemFree:          100 kB";
         "Buffers:           20 kB"; "Cached:            50 kB";
         "SwapCached:         0 kB"; "SwapTotal:          0 kB";
         "SwapFree:           0 kB"; "Shmem:             10 kB" ]%string.

Definition meminfo_negative : list ascii :=
  text [ "MemTotal:        3 kB"; "MemAvailable:   -5 kB";
         "SwapTotal:       0 kB"; "SwapFree:        0 kB" ]%string.

(** All of the swap is in use. *)
Definition meminfo_swap_full : list ascii :=
  text [ "MemTotal:       16384 kB"; "MemFree:         1000 kB";
         "MemAvailable:    8192 kB"; "SwapTotal:       1000 kB";
         "SwapFree:           0 kB" ]%string.

Definition meminfo_zero_total : list ascii :=
  text [ "MemTotal:           0 kB"; "MemFree:         1000 kB";
         "MemAvailable:    8192 kB"; "SwapTotal:       2048 kB";
         "SwapFree:        1024 kB" ]%string.

Definition meminfo_no_total : list ascii :=
  text [ "MemFree:         1000 kB"; "MemAvailable:    8192 kB";
         "SwapTotal:       2048 kB"; "SwapFree:        1024 kB" ]%string.

Definition meminfo_minus_one : list ascii :=
  text [ "MemTotal:        1000 kB"; "MemFree:          100 kB";
         "MemAvailable:      -1 kB"; "Buffers:           20 kB";
         "Cached:            50 kB"; "SwapTotal:          0 kB";
         "SwapFree:           0 kB"; "Shmem:             10 kB" ]%string.

(** No MemAvailable, and a Shmem of -1. *)
Definition meminfo_shmem_minus_one : list ascii :=
  text [ "MemTotal:        1000 kB"; "MemFree:          100 kB";
         "Buffers:           20 kB"; "Cached:            50 kB";
         "SwapCached:         0 kB"; "SwapTotal:          0 kB";
         "SwapFree:           0 kB"; "Shmem:             -1 kB" ]%string.

Definition meminfo_negative_total : list ascii :=
  text [ "MemTotal:       -5 kB"; "MemAvailable:    3 kB";
         "SwapTotal:       0 kB"; "SwapFree:        0 kB" ]%string.

Definition space : ascii := " "%char.

(** /proc/[pid]/stat of a running [cat]. *)
Definition stat_cat : list ascii :=
  str "10751 (cat) R 2663 10751 2663 34822 10751 4194304 95".

(** A zombie whose name holds a space. *)
Definition stat_web_content_zombie : list ascii :=
  str "4242 (Web Content) Z 4000 4242 4000 0 -1 4228356 0".

(** A sleeping process whose name holds a space before a Z. *)
Definition stat_zed : list ascii :=
  str "512 (my Zed) S 1 512 512 0 -1 4194560 1200".

(** A process table with one entry. *)
Definition only (pid : Z) (stat : list ascii) : procfs :=
  fun p => if p =? pid then Some stat else None.

(** ** The other accessors of /proc/[pid] *)

(** The files /proc/[pid]/[name]: [None] where [fopen] fails. *)
Definition proc_files : Type := Z -> cstring -> option (list ascii).

Definition in_int (z : Z) : bool := (INT_MIN <=? z) && (z <=? INT_MAX).

(** The number a conversion of [fscanf] has read is stored when the object
    holds it; a number the object cannot hold has no defined behaviour. *)
Definition int_result (z : Z) : M Z :=
  if in_int z then ret z else undefined signed_overflow.

(** [%d] and [%ld]: white space, an optional sign, at least one digit; the
    number read and the rest of the input. *)
Definition scan_d (s : list ascii) : scan Z :=
  match skip_space s with
  | [] => Input_failure
  | s1 =>
      let (neg, s2) := read_sign s1 in
      match span isdigit s2 with
      | ([], []) => Input_failure
      | ([], _ :: _) => Matching_failure
      | (ds, rest) => Matched (if neg then - decimal ds else decimal ds) rest
      end
  end.

(** [%*u]: the input has the form [strtoul] expects, which is the one of
    [%*d]. *)
Definition scan_skip_u (s : list ascii) : scan unit := scan_skip_d s.

(** [fscanf(f, "%d", out)]: the value returned and the number read, if
    any. *)
Definition fscanf_d (s : list ascii) : Z * option Z :=
  match scan_d s with
  | Matched v _ => (1, Some v)
  | Matching_failure => (0, None)
  | Input_failure => (EOF, None)
  end.

(** [fscanf(f, "%*u %ld", &vm_rss_kib)]: the value returned and the number
    read, if any. *)
Definition fscanf_u_ld (s : list ascii) : Z * option Z :=
  match scan_skip_u s with
  | Matched _ s1 =>
      match scan_d (skip_space s1) with
      | Matched v _ => (1, Some v)
      | Matching_failure => (0, None)
      | Input_failure => (EOF, None)
      end
  | Matching_failure => (0, None)
  | Input_failure => (EOF, None)
  end.

(** [read_proc_file_integer], lines 142-156: the value returned and the
    [int] that [out] points to afterwards. *)
Definition read_proc_file_integer (proc : proc_files) (pid : Z)
    (name : cstring) (out : Z) : M (Z * Z) :=
  match proc pid name with
  | None => ret (-1, out)
  | Some f =>
      let (matches, number) := fscanf_d f in
      out' <- match number with
              | Some v => int_result v
              | None => ret out
              end ;;
      if negb (matches =? 1) then ret (-1, out') else ret (0, out')
  end.

(** [get_oom_score], lines 161-169. *)
Definition get_oom_score (proc : proc_files) (pid : Z) : M Z :=
  r <- read_proc_file_integer proc pid (str "oom_score") 0 ;;
  let (res, out) := r in
  if res =? -1 then ret (-1) else ret out.

(** [get_oom_score_adj], lines 177-180: the value returned and the [int]
    that [out] points to afterwards. *)
Definition get_oom_score_adj (proc : proc_files) (pid : Z) (out : Z)
  : M (Z * Z) :=
  read_proc_file_integer proc pid (str "oom_score_adj") out.

(** [get_uid], lines 207-217. [owner] is what [stat] finds for /proc/[pid]:
    the [st_uid] of the directory, [None] where [stat] fails. The unsigned
    [st_uid] is converted to the [int] returned. *)
Definition get_uid (owner : Z -> option Z) (pid : Z) : Z :=
  match owner pid with
  | None => -1
  | Some st_uid => int_of_long st_uid
  end.

(** [get_vm_rss_kib], lines 221-247. [sysconf_pagesize] is what
    [sysconf(_SC_PAGESIZE)] answers, [page_size] the static variable at the
    call; the value returned comes with the static variable afterwards. *)
Definition get_vm_rss_kib (sysconf_pagesize : Z) (proc : proc_files)
    (pid : Z) (page_size : Z) : M (Z * Z) :=
  match proc pid (str "statm") with
  | None => ret (-1, page_size)
  | Some f =>
      let (matches, number) := fscanf_u_ld f in
      if matches <? 1 then ret (-1, page_size)
      else
        match number with
        | None => undefined uninitialised_read
        | Some v =>
            vm_rss_kib <- long_result v ;;
            let page_size' :=
              if page_size =? 0 then int_of_long sysconf_pagesize
              else page_size in
            pages_bytes <- long_mul vm_rss_kib page_size' ;;
            vm_rss_kib' <- long_div pages_bytes 1024 ;;
            ret (vm_rss_kib', page_size')
        end
  end.

(** Conversion of an [int] to [size_t]. *)
Definition size_t_of_int (z : Z) : Z := z mod 2 ^ 64.

(** [fread(out, 1, count, f)] on a handle just opened, for a count that
    the array [out] holds: the bytes delivered. *)
Definition fread_bytes (count : Z) (f : list ascii) : list ascii :=
  if Z.of_nat (List.length f) <=? count then f
  else firstn (Z.to_nat count) f.

(** An array after [bytes] were stored from its start on. *)
Definition store_bytes (bytes buf : list ascii) : list ascii :=
  bytes ++ skipn (List.length bytes) buf.

(** An array after [buf[i] = c]. *)
Definition store_at (i : nat) (c : ascii) (buf : list ascii) : list ascii :=
  firstn i buf ++ c :: skipn (S i) buf.

(** [get_comm] returns with a value and the array [out] afterwards; or it
    hands to [fread] a count that the array does not hold, and what [fread]
    does then (store nothing and fail, or write past the array) is not
    followed here. *)
Inductive comm_outcome : Type :=
| comm_returns (res : Z) (out : list ascii)
| comm_count_beyond_array.

Section Comm.

(** [fix_truncated_utf8] is not among the sources; it works on the array in
    place. *)
Variable fix_truncated_utf8 : list ascii -> list ascii.

(** [get_comm], lines 185-203. [out] is the array the caller passes, with
    all its elements. *)
Definition get_comm (proc : proc_files) (pid : Z) (out : list ascii)
    (outlen : Z) : comm_outcome :=
  match proc pid (str "comm") with
  | None => comm_returns (-1) out
  | Some f =>
      let count := size_t_of_int (outlen - 1) in
      if Z.of_nat (List.length out) <? count then comm_count_beyond_array
      else
        let bytes := fread_bytes count f in
        let out1 := store_bytes bytes out in
        let n := int_of_long (Z.of_nat (List.length bytes)) in
        if n <? 2 then comm_returns (-1) out1
        else
          comm_returns 0
            (fix_truncated_utf8 (store_at (Z.to_nat (n - 1)) NUL out1))
  end.

End Comm.

(** A table of files. *)
Fixpoint cstring_eqb (a b : cstring) : bool :=
  match a, b with
  | [], [] => true
  | x :: a', y :: b' => Ascii.eqb x y && cstring_eqb a' b'
  | _, _ => false
  end.

Definition files (entries : list (Z * string * list ascii)) : proc_files :=
  fun pid name =>
    match find (fun e => (fst (fst e) =? pid)
                         && cstring_eqb (str (snd (fst e))) name) entries with
    | Some e => Some (snd e)
    | None => None
    end.

(** The files of a process 4242. *)
Definition proc_4242 : proc_files :=
  files [ (4242, "oom_score", text ["667"]);
          (4242, "oom_score_adj", text ["-1"]);
          (4242, "statm", text ["56789 1234 321 17 0 4567 0"]);
          (4242, "comm", text ["cat"]) ]%string.

(** The text starts with an integer of value [v], as [integer_text] has
    it, and [tl] is what follows the last digit. *)
Definition integer_then (s : cstring) (v : Z) (tl : cstring) : Prop :=
  exists ws sg k ds,
    s = ws ++ sg ++ ds ++ tl /\
    Forall (fun c => isspace c = true) ws /\
    sign_text sg k /\
    ds <> [] /\
    Forall (fun c => isdigit c = true) ds /\
    no_digit_ahead tl /\
    v = k * decimal ds.

(** ** [print_mem_stats] and its format *)

Definition digit_char (d : Z) : ascii := ascii_of_N (Z.to_N (48 + d)).

(** The decimal digits of [n >= 0] in front of [acc], the last digit
    first; [fuel] bounds the number of divisions by 10. *)
Fixpoint decimal_digits (fuel : nat) (n : Z) (acc : cstring) : cstring :=
  let acc' := digit_char (n mod 10) :: acc in
  match fuel with
  | O => acc'
  | S fuel' => if n <? 10 then acc' else decimal_digits fuel' (n / 10) acc'
  end.

(** What [%d] prints for an [int]. *)
Definition print_d (z : Z) : cstring :=
  (if z <? 0 then [minus_sign] else [])
  ++ decimal_digits (Z.to_nat (Z.log2 (Z.abs z))) (Z.abs z) [].

(** What [%wd] prints: [%d], filled up with spaces on the left to the
    width [w]. *)
Definition print_wd (w : nat) (z : Z) : cstring :=
  repeat space (w - List.length (print_d z)) ++ print_d z.

(** The text that the format of [print_mem_stats], lines 256-262, makes of
    a snapshot, as [printf] would print it. *)
Definition status_line (m : meminfo_t) : cstring :=
  str "mem avail: " ++ print_wd 5 (MemAvailableMiB m)
  ++ str " of " ++ print_wd 5 (MemTotalMiB m)
  ++ str " MiB (" ++ print_wd 2 (MemAvailablePercent m)
  ++ str " %), swap free: " ++ print_wd 4 (SwapFreeMiB m)
  ++ str " of " ++ print_wd 4 (SwapTotalMiB m)
  ++ str " MiB (" ++ print_wd 2 (SwapFreePercent m)
  ++ str " %)" ++ [newline].

(** [print_mem_stats], lines 254-263, for an [out_func] that formats as
    [printf] does: [out_func] is given the text to print. *)
Definition print_mem_stats {A : Type} (out_func : cstring -> A)
    (m : meminfo_t) : A :=
  out_func (status_line m).

(** A snapshot as [print_mem_stats] is given it in the comment of the
    source. *)
Definition snapshot_sample : meminfo_t :=
  {| MemTotalKiB := 8030208; MemTotalMiB := 7842;
     MemAvailableMiB := 5259; SwapTotalMiB := 0; SwapTotalKiB := 0;
     SwapFreeMiB := 0; MemAvailablePercent := 67; SwapFreePercent := 0 |}.

(** * Properties *)

(** ** [strstr] finds the first occurrence *)

Lemma starts_with_app (n post : cstring) : starts_with n (n ++ post) = true.
Proof.
  induction n as [|a n IH]; simpl; [reflexivity|].
  now rewrite Ascii.eqb_refl.
Qed.

Lemma starts_with_inv (n h : cstring) :
  starts_with n h = true -> exists post, h = n ++ post.
Proof.
  revert h; induction n as [|a n IH]; intros h H.
  - now exists h.
  - destruct h as [|b h]; simpl in H; [discriminate|].
    apply andb_true_iff in H as [Hab Hn].
    apply Ascii.eqb_eq in Hab; subst b.
    destruct (IH _ Hn) as [post ->]. now exists post.
Qed.

Lemma strstr_here (h n : cstring) :
  starts_with n h = true -> strstr h n = Some h.
Proof. destruct h; simpl; now intros ->. Qed.

Lemma strstr_step (a : ascii) (h n : cstring) :
  starts_with n (a :: h) = false -> strstr (a :: h) n = strstr h n.
Proof. simpl; now intros ->. Qed.

Lemma strstr_None (h n : cstring) : strstr h n = None <-> ~ occurs n h.
Proof.
  split.
  - induction h as [|a h IH]; intros H [pre [post E]].
    + symmetry in E. apply app_eq_nil in E as [-> E].
      apply app_eq_nil in E as [-> ->]. discriminate.
    + destruct (starts_with n (a :: h)) eqn:S.
      * rewrite strstr_here in H by assumption. discriminate.
      * rewrite strstr_step in H by assumption.
        destruct pre as [|b pre]; simpl in E.
        -- rewrite E, starts_with_app in S. discriminate.
        -- injection E as _ E. apply (IH H). now exists pre, post.
  - intros H. destruct (strstr h n) as [hit|] eqn:E; [|reflexivity].
    exfalso; apply H. clear H.
    revert hit E; induction h as [|a h IH]; intros hit E.
    + destruct (starts_with n []) eqn:S; simpl in E; rewrite S in E;
        [|discriminate].
      apply starts_with_inv in S as [post S]. now exists [], post.
    + destruct (starts_with n (a :: h)) eqn:S.
      * apply starts_with_inv in S as [post S]. now exists [], post.
      * rewrite strstr_step in E by assumption.
        destruct (IH _ E) as [pre [post ->]]. now exists (a :: pre), post.
Qed.

Lemma strstr_first (n h pre post : cstring) :
  first_occurrence n h pre post -> strstr h n = Some (n ++ post).
Proof.
  revert h; induction pre as [|a pre IH]; intros h [E Hmin].
  - simpl in E; subst h. apply strstr_here, starts_with_app.
  - simpl in E; subst h.
    rewrite strstr_step.
    + apply IH. split; [reflexivity|].
      intros pre' post' E'.
      specialize (Hmin (a :: pre') post'). simpl in Hmin.
      rewrite E' in Hmin. specialize (Hmin eq_refl). lia.
    + destruct (starts_with n (a :: pre ++ n ++ post)) eqn:S; [|reflexivity].
      apply starts_with_inv in S as [post' S].
      specialize (Hmin [] post' S). simpl in Hmin. lia.
Qed.

Lemma strstr_Some (n h hit : cstring) :
  strstr h n = Some hit ->
  exists pre post, hit = n ++ post /\ first_occurrence n h pre post.
Proof.
  revert hit; induction h as [|a h IH]; intros hit E.
  - destruct (starts_with n []) eqn:S; simpl in E; rewrite S in E;
      [|discriminate].
    injection E as <-. apply starts_with_inv in S as [post S].
    exists [], post. repeat split; auto. intros; simpl; lia.
  - destruct (starts_with n (a :: h)) eqn:S.
    + rewrite strstr_here in E by assumption. injection E as <-.
      apply starts_with_inv in S as [post S].
      exists [], post. repeat split; auto. intros; simpl; lia.
    + rewrite strstr_step in E by assumption.
      destruct (IH _ E) as (pre & post & -> & -> & Hmin).
      exists (a :: pre), post. repeat split; auto.
      intros [|b pre'] post' E'; simpl in E'.
      * rewrite E', starts_with_app in S. discriminate.
      * injection E' as _ E'. specialize (Hmin _ _ E'). simpl; lia.
Qed.

Lemma skipn_label (n post : cstring) : skipn (strlen n) (n ++ post) = post.
Proof. induction n; simpl; auto. Qed.

(** ** [strtol] reads the integer text *)

Lemma span_app (p : ascii -> bool) (run rest : cstring) :
  Forall (fun c => p c = true) run ->
  match rest with [] => True | c :: _ => p c = false end ->
  span p (run ++ rest) = (run, rest).
Proof.
  induction 1 as [|c run Hc _ IH]; simpl; intros Hrest.
  - destruct rest as [|c rest]; simpl; [reflexivity|]. now rewrite Hrest.
  - now rewrite Hc, IH.
Qed.

Lemma digit_not_space (c : ascii) : isdigit c = true -> isspace c = false.
Proof.
  unfold isdigit, isspace. intros H.
  apply andb_true_iff in H as [H _]. apply N.leb_le in H.
  apply orb_false_iff; split.
  - apply N.eqb_neq. lia.
  - apply andb_false_iff; right. apply N.leb_gt. lia.
Qed.

Lemma digit_not_sign (c : ascii) :
  isdigit c = true ->
  Ascii.eqb c minus_sign = false /\ Ascii.eqb c plus_sign = false.
Proof.
  intros H; split.
  - destruct (Ascii.eqb_spec c minus_sign); [subst; discriminate|reflexivity].
  - destruct (Ascii.eqb_spec c plus_sign); [subst; discriminate|reflexivity].
Qed.

Lemma read_sign_digit (c : ascii) (s : cstring) :
  isdigit c = true -> read_sign (c :: s) = (false, c :: s).
Proof.
  intros H. destruct (digit_not_sign c H) as [Hm Hp].
  unfold read_sign. now rewrite Hm, Hp.
Qed.

Lemma read_sign_plus (s : cstring) : read_sign (plus_sign :: s) = (false, s).
Proof. reflexivity. Qed.

Lemma read_sign_minus (s : cstring) : read_sign (minus_sign :: s) = (true, s).
Proof. reflexivity. Qed.

Lemma strtol_integer_text (e : Z) (s : cstring) (v : Z) :
  integer_text s v -> strtol e s = saturate v.
Proof.
  intros (ws & sg & k & ds & tl & -> & Hws & Hsg & Hne & Hds & Htl & ->).
  destruct ds as [|d ds]; [congruence|].
  pose proof (Forall_inv Hds) as Hd. simpl in Hd.
  unfold strtol, skip_space.
  assert (Hspan : span isdigit ((d :: ds) ++ tl) = (d :: ds, tl)).
  { apply span_app; [assumption|]. destruct tl; auto. }
  rewrite (span_app isspace ws (sg ++ (d :: ds) ++ tl) Hws).
  - simpl snd. simpl app in Hspan.
    inversion Hsg; subst; cbn [app].
    + rewrite read_sign_digit, Hspan by assumption.
      now rewrite Z.mul_1_l.
    + rewrite read_sign_plus, Hspan. now rewrite Z.mul_1_l.
    + rewrite read_sign_minus, Hspan.
      now replace (-1 * decimal (d :: ds)) with (- decimal (d :: ds)) by lia.
  - inversion Hsg; subst; simpl; try reflexivity.
    now apply digit_not_space.
Qed.

Lemma saturate_in_long (v : Z) : in_long v = true -> saturate v = (v, 0).
Proof.
  unfold in_long, saturate. intros H.
  apply andb_true_iff in H as [H1 H2].
  apply Z.leb_le in H1, H2.
  destruct (Z.ltb_spec v LONG_MIN); [lia|].
  destruct (Z.ltb_spec LONG_MAX v); [lia|reflexivity].
Qed.

Lemma saturate_out_of_long (v : Z) :
  in_long v = false -> snd (saturate v) = ERANGE.
Proof.
  unfold in_long, saturate. intros H.
  destruct (Z.ltb_spec v LONG_MIN); [reflexivity|].
  destruct (Z.ltb_spec LONG_MAX v); [reflexivity|].
  apply andb_false_iff in H as [H|H]; apply Z.leb_gt in H; lia.
Qed.

(** ** Monad and globals *)

Lemma quiet_refl (g : globals) : quiet g g.
Proof. now split. Qed.

Lemma quiet_trans (g1 g2 g3 : globals) :
  quiet g1 g2 -> quiet g2 g3 -> quiet g1 g3.
Proof. intros [A B] [C D]; split; congruence. Qed.

Lemma warnings_log (o : output) (g : globals) :
  warnings (log o g) =
  (warnings g + if is_guesstimate_warning o then 1 else 0)%nat.
Proof.
  unfold warnings, log; simpl.
  rewrite filter_app, length_app. simpl.
  now destruct (is_guesstimate_warning o).
Qed.

Lemma quiet_log (o : output) (g : globals) :
  is_guesstimate_warning o = false -> quiet g (log o g).
Proof.
  intros H; split; [reflexivity|]. rewrite warnings_log, H. lia.
Qed.

Lemma quiet_set_fd (b : bool) (g : globals) : quiet g (set_fd b g).
Proof. now split. Qed.

Create HintDb earlyoom.
#[local] Hint Resolve quiet_refl quiet_log quiet_set_fd : earlyoom.

Lemma bind_Returns {A B} (m : M A) (k : A -> M B) g b g'' :
  bind m k g = Returns b g'' <->
  exists a g', m g = Returns a g' /\ k a g' = Returns b g''.
Proof.
  unfold bind; split.
  - destruct (m g) as [a g'| |]; try discriminate. intros H. now exists a, g'.
  - intros (a & g' & -> & H). exact H.
Qed.

Lemma bind_Exits {A B} (m : M A) (k : A -> M B) g code g'' :
  bind m k g = Exits code g'' <->
  m g = Exits code g'' \/
  exists a g', m g = Returns a g' /\ k a g' = Exits code g''.
Proof.
  unfold bind; split.
  - destruct (m g) as [a g'|c g'|]; try discriminate; intros H.
    + right. now exists a, g'.
    + left. congruence.
  - intros [-> | (a & g' & -> & H)]; auto.
Qed.

Lemma bind_Undefined {A B} (m : M A) (k : A -> M B) g why :
  bind m k g = Undefined why <->
  m g = Undefined why \/
  exists a g', m g = Returns a g' /\ k a g' = Undefined why.
Proof.
  unfold bind; split.
  - destruct (m g) as [a g'|c g'|w]; try discriminate; intros H.
    + right. now exists a, g'.
    + left. congruence.
  - intros [-> | (a & g' & -> & H)]; auto.
Qed.

Lemma fatal_with_argument {A} (code : Z) (fmt : cstring)
    (args : list cstring) (g : globals) :
  (List.length args <? conversions fmt)%nat = false ->
  @fatal A code fmt args g = Exits code (log (fatal_message code) g).
Proof. unfold fatal. now intros ->. Qed.

(** ** [get_entry] and [get_entry_fatal] *)

Section Entries.

Variable e : Z.

Lemma get_entry_entry (name buf : cstring) (g : globals) :
  exists g', get_entry e name buf g = Returns (entry e name buf) g' /\
             quiet g g'.
Proof.
  unfold entry, get_entry.
  destruct (strstr buf name) as [hit|].
  - destruct (strtol e (skipn (strlen name) hit)) as [val errno].
    destruct (errno =? 0); simpl.
    + exists g; auto with earlyoom.
    + exists (log perror_strtol g). unfold bind, print, ret.
      auto with earlyoom.
  - exists g; auto with earlyoom.
Qed.

Lemma get_entry_absent (name buf : cstring) (g : globals) :
  ~ occurs name buf -> get_entry e name buf g = Returns (-1) g.
Proof.
  intros H. apply strstr_None in H. unfold get_entry. now rewrite H.
Qed.

Lemma get_entry_at (name buf pre post : cstring) (g : globals) :
  first_occurrence name buf pre post ->
  get_entry e name buf g =
  (let (val, errno) := strtol e post in
   if negb (errno =? 0) then print perror_strtol ;;; ret (-1) else ret val) g.
Proof.
  intros H. apply strstr_first in H. unfold get_entry.
  now rewrite H, skipn_label.
Qed.

Lemma get_entry_field (name buf : cstring) (v : Z) (g : globals) :
  field name buf v -> in_long v = true ->
  get_entry e name buf g = Returns v g.
Proof.
  intros (pre & post & Hfirst & Htext) Hv.
  rewrite (get_entry_at _ _ _ _ _ Hfirst).
  now rewrite (strtol_integer_text _ _ _ Htext), saturate_in_long.
Qed.

Lemma get_entry_out_of_long (name buf : cstring) (v : Z) (g : globals) :
  field name buf v -> in_long v = false ->
  get_entry e name buf g = Returns (-1) (log perror_strtol g).
Proof.
  intros (pre & post & Hfirst & Htext) Hv.
  rewrite (get_entry_at _ _ _ _ _ Hfirst).
  rewrite (strtol_integer_text _ _ _ Htext).
  pose proof (saturate_out_of_long v Hv) as Herr.
  destruct (saturate v) as [val errno]. simpl in Herr. subst errno.
  reflexivity.
Qed.

Lemma entry_absent (name buf : cstring) :
  ~ occurs name buf -> entry e name buf = -1.
Proof. intros H. unfold entry. now rewrite get_entry_absent. Qed.

Lemma entry_field (name buf : cstring) (v : Z) :
  field name buf v -> in_long v = true -> entry e name buf = v.
Proof. intros H Hv. unfold entry. now rewrite (get_entry_field _ _ v). Qed.

Lemma get_entry_fatal_found (name buf : cstring) (g : globals) :
  entry e name buf <> -1 ->
  exists g', get_entry_fatal e name buf g = Returns (entry e name buf) g' /\
             quiet g g'.
Proof.
  intros H. destruct (get_entry_entry name buf g) as (g' & E & Q).
  exists g'. split; [|assumption].
  unfold get_entry_fatal, bind. rewrite E.
  apply Z.eqb_neq in H. now rewrite H.
Qed.

Lemma get_entry_fatal_missing (name buf : cstring) (g : globals) :
  entry e name buf = -1 ->
  get_entry_fatal e name buf g = Undefined missing_argument.
Proof.
  intros H. destruct (get_entry_entry name buf g) as (g' & E & Q).
  unfold get_entry_fatal, bind. rewrite E, H. reflexivity.
Qed.

Lemma get_entry_fatal_eq (name buf : cstring) (g : globals) :
  exists g', quiet g g' /\
    get_entry_fatal e name buf g =
    if entry e name buf =? -1 then Undefined missing_argument
    else Returns (entry e name buf) g'.
Proof.
  destruct (Z.eqb_spec (entry e name buf) (-1)) as [H|H].
  - exists g. split; [apply quiet_refl|].
    now apply get_entry_fatal_missing.
  - destruct (get_entry_fatal_found name buf g H) as (g' & E & Q).
    now exists g'.
Qed.

Lemma long_result_Returns (z v : Z) (g g' : globals) :
  long_result z g = Returns v g' -> v = z /\ g' = g /\ in_long z = true.
Proof.
  unfold long_result. destruct (in_long z); [|discriminate].
  unfold ret. intros H; injection H as <- <-. auto.
Qed.

Lemma long_div_Returns (a b v : Z) (g g' : globals) :
  long_div a b g = Returns v g' ->
  b <> 0 /\ v = Z.quot a b /\ g' = g /\ in_long (Z.quot a b) = true.
Proof.
  unfold long_div. destruct (Z.eqb_spec b 0); [discriminate|].
  intros H. apply long_result_Returns in H. tauto.
Qed.

(** ** The estimate *)

Lemma available_guesstimate_eq (buf : cstring) (g : globals) :
  exists g', quiet g g' /\
    available_guesstimate e buf g =
    if estimate_missing e buf then Undefined missing_argument
    else if estimate_in_long e buf then Returns (estimate e buf) g'
    else Undefined signed_overflow.
Proof.
  unfold available_guesstimate, estimate_missing, estimate_in_long, estimate.
  unfold bind at 1.
  destruct (get_entry_fatal_eq (str "Cached:") buf g) as (g1 & Q1 & ->).
  destruct (entry e (str "Cached:") buf =? -1); [now exists g1|].
  unfold bind at 1.
  destruct (get_entry_fatal_eq (str "MemFree:") buf g1) as (g2 & Q2 & ->).
  pose proof (quiet_trans _ _ _ Q1 Q2) as Q12.
  destruct (entry e (str "MemFree:") buf =? -1); [now exists g2|].
  unfold bind at 1.
  destruct (get_entry_fatal_eq (str "Buffers:") buf g2) as (g3 & Q3 & ->).
  pose proof (quiet_trans _ _ _ Q12 Q3) as Q13.
  destruct (entry e (str "Buffers:") buf =? -1); [now exists g3|].
  unfold bind at 1.
  destruct (get_entry_fatal_eq (str "Shmem:") buf g3) as (g4 & Q4 & ->).
  pose proof (quiet_trans _ _ _ Q13 Q4) as Q14.
  destruct (entry e (str "Shmem:") buf =? -1); [now exists g4|].
  exists g4; split; [assumption|]. simpl orb.
  unfold bind, long_add, long_sub, long_result, ret, undefined.
  destruct (in_long (entry e (str "MemFree:") buf
                     + entry e (str "Cached:") buf)); [|reflexivity].
  destruct (in_long (entry e (str "MemFree:") buf
                     + entry e (str "Cached:") buf
                     + entry e (str "Buffers:") buf)); [|reflexivity].
  simpl andb.
  now destruct (in_long _).
Qed.

Lemma warn_guesstimate_eq (g : globals) :
  warn_guesstimate g = Returns tt (warned g).
Proof.
  unfold warn_guesstimate, warned.
  now destruct (guesstimate_warned g =? 0).
Qed.

Lemma mem_available_eq (buf : cstring) (g : globals) :
  exists g', quiet g g' /\
    mem_available e buf g =
    if entry e (str "MemAvailable:") buf =? -1 then
      if estimate_missing e buf then Undefined missing_argument
      else if estimate_in_long e buf
           then Returns (estimate e buf) (warned g')
           else Undefined signed_overflow
    else Returns (entry e (str "MemAvailable:") buf) g'.
Proof.
  unfold mem_available. unfold bind at 1.
  destruct (get_entry_entry (str "MemAvailable:") buf g) as (g1 & -> & Q1).
  destruct (entry e (str "MemAvailable:") buf =? -1); [|now exists g1].
  unfold fallback. unfold bind at 1.
  destruct (available_guesstimate_eq buf g1) as (g2 & Q2 & ->).
  exists g2. split; [eapply quiet_trans; eassumption|].
  destruct (estimate_missing e buf); [reflexivity|].
  destruct (estimate_in_long e buf); [|reflexivity].
  unfold bind. now rewrite warn_guesstimate_eq.
Qed.

(** ** [parse_meminfo] *)

Lemma read_meminfo_eq (f : meminfo_file) (g : globals) :
  exists g', quiet g g' /\
    read_meminfo f g =
    if unreadable f g then Exits 102 g' else Returns (c_str (fread f)) g'.
Proof.
  unfold read_meminfo, unreadable. cbv zeta.
  rewrite !fatal_with_argument by reflexivity.
  destruct (fd g) eqn:Hfd; simpl orb; simpl negb.
  - rewrite Hfd. simpl negb.
    destruct (Z.of_nat (List.length (fread f)) =? 0); simpl.
    + exists (log (fatal_message 102) g); auto with earlyoom.
    + exists g; auto with earlyoom.
  - simpl fd. destruct (can_open f); simpl.
    + destruct (Z.of_nat (List.length (fread f)) =? 0).
      * exists (log (fatal_message 102) (set_fd true g)). split; [|reflexivity].
        eapply quiet_trans; auto with earlyoom.
      * exists (set_fd true g); auto with earlyoom.
    + exists (log (fatal_message 102) (set_fd false g)). split; [|reflexivity].
      eapply quiet_trans; auto with earlyoom.
Qed.

Lemma snapshot_Returns (mt swt swf av : Z) (g : globals) m g' :
  snapshot mt swt swf av g = Returns m g' ->
  g' = g /\ mt <> 0 /\ in_long (av * 100) = true /\
  MemTotalKiB m = mt /\ SwapTotalKiB m = swt /\
  MemAvailablePercent m = int_of_long (Z.quot (av * 100) mt) /\
  SwapFreePercent m =
    (if 0 <? swt then int_of_long (Z.quot (swf * 100) swt) else 0) /\
  MemTotalMiB m = int_of_long (Z.quot mt 1024) /\
  MemAvailableMiB m = int_of_long (Z.quot av 1024) /\
  SwapTotalMiB m = int_of_long (Z.quot swt 1024) /\
  SwapFreeMiB m = int_of_long (Z.quot swf 1024).
Proof.
  unfold snapshot. intros H.
  apply bind_Returns in H as (p & g1 & Hp & H).
  apply long_result_Returns in Hp as (-> & -> & Hp).
  apply bind_Returns in H as (pc & g1 & Hpc & H).
  apply long_div_Returns in Hpc as (Hmt & -> & -> & _).
  apply bind_Returns in H as (sp & g1 & Hsp & H).
  assert (Hsp' : g1 = g /\
                 int_of_long sp =
                 if 0 <? swt then int_of_long (Z.quot (swf * 100) swt) else 0).
  { destruct (0 <? swt).
    - apply bind_Returns in Hsp as (q & g2 & Hq & Hsp).
      apply long_result_Returns in Hq as (-> & -> & _).
      apply long_div_Returns in Hsp as (_ & -> & -> & _). auto.
    - injection Hsp as <- <-. auto. }
  destruct Hsp' as [-> Hsp']. clear Hsp.
  apply bind_Returns in H as (a & g1 & Ha & H).
  apply long_div_Returns in Ha as (_ & -> & -> & _).
  apply bind_Returns in H as (b & g1 & Hb & H).
  apply long_div_Returns in Hb as (_ & -> & -> & _).
  apply bind_Returns in H as (c & g1 & Hc & H).
  apply long_div_Returns in Hc as (_ & -> & -> & _).
  apply bind_Returns in H as (d & g1 & Hd & H).
  apply long_div_Returns in Hd as (_ & -> & -> & _).
  injection H as <- <-. simpl. repeat split; auto.
Qed.

Lemma snapshot_zero_total (swt swf av : Z) (g : globals) :
  snapshot 0 swt swf av g =
  Undefined (if in_long (av * 100) then division_by_zero
             else signed_overflow).
Proof.
  unfold snapshot, bind, long_mul, long_result.
  now destruct (in_long (av * 100)).
Qed.

Lemma parse_meminfo_eq (f : meminfo_file) (g : globals) :
  exists g', quiet g g' /\
    parse_meminfo e f g =
    if unreadable f g then Exits 102 g'
    else
      let buf := c_str (fread f) in
      if mandatory_missing e buf then Undefined missing_argument
      else if entry e (str "MemAvailable:") buf =? -1 then
        if estimate_missing e buf then Undefined missing_argument
        else if estimate_in_long e buf then
          snapshot (entry e (str "MemTotal:") buf)
                   (entry e (str "SwapTotal:") buf)
                   (entry e (str "SwapFree:") buf)
                   (estimate e buf) (warned g')
        else Undefined signed_overflow
      else
        snapshot (entry e (str "MemTotal:") buf)
                 (entry e (str "SwapTotal:") buf)
                 (entry e (str "SwapFree:") buf)
                 (entry e (str "MemAvailable:") buf) g'.
Proof.
  unfold parse_meminfo, mandatory_missing. unfold bind at 1.
  destruct (read_meminfo_eq f g) as (g0 & Q0 & ->).
  destruct (unreadable f g); [now exists g0|].
  cbv zeta. set (buf := c_str (fread f)).
  unfold bind at 1.
  destruct (get_entry_fatal_eq (str "MemTotal:") buf g0) as (g1 & Q1 & ->).
  pose proof (quiet_trans _ _ _ Q0 Q1) as Q01.
  destruct (entry e (str "MemTotal:") buf =? -1); [now exists g1|].
  unfold bind at 1.
  destruct (get_entry_fatal_eq (str "SwapTotal:") buf g1) as (g2 & Q2 & ->).
  pose proof (quiet_trans _ _ _ Q01 Q2) as Q02.
  destruct (entry e (str "SwapTotal:") buf =? -1); [now exists g2|].
  unfold bind at 1.
  destruct (get_entry_fatal_eq (str "SwapFree:") buf g2) as (g3 & Q3 & ->).
  pose proof (quiet_trans _ _ _ Q02 Q3) as Q03.
  destruct (entry e (str "SwapFree:") buf =? -1); [now exists g3|].
  simpl orb. unfold bind at 1.
  destruct (mem_available_eq buf g3) as (g4 & Q4 & ->).
  exists g4. split; [eapply quiet_trans; eassumption|].
  destruct (entry e (str "MemAvailable:") buf =? -1); [|reflexivity].
  destruct (estimate_missing e buf); [reflexivity|].
  now destruct (estimate_in_long e buf).
Qed.

Lemma parse_meminfo_Returns (f : meminfo_file) (g : globals) m g' :
  parse_meminfo e f g = Returns m g' ->
  let buf := c_str (fread f) in
  unreadable f g = false /\ mandatory_missing e buf = false /\
  snapshot (entry e (str "MemTotal:") buf) (entry e (str "SwapTotal:") buf)
           (entry e (str "SwapFree:") buf) (available_kib e buf) g'
  = Returns m g' /\
  exists g0, quiet g g0 /\
    g' = if entry e (str "MemAvailable:") buf =? -1 then warned g0 else g0.
Proof.
  intros H buf. destruct (parse_meminfo_eq f g) as (g0 & Q & E).
  rewrite H in E. fold buf in E. cbv zeta in E. unfold available_kib.
  destruct (unreadable f g); [discriminate|].
  destruct (mandatory_missing e buf); [discriminate|].
  destruct (entry e (str "MemAvailable:") buf =? -1).
  - destruct (estimate_missing e buf); [discriminate|].
    destruct (estimate_in_long e buf); [|discriminate].
    symmetry in E.
    pose proof (snapshot_Returns _ _ _ _ _ _ _ E) as (-> & _).
    repeat split; auto. now exists g0.
  - symmetry in E.
    pose proof (snapshot_Returns _ _ _ _ _ _ _ E) as (-> & _).
    repeat split; auto. now exists g0.
Qed.

End Entries.

(** ** Integer conversions *)

Lemma int_of_long_small (z : Z) :
  INT_MIN <= z <= INT_MAX -> int_of_long z = z.
Proof.
  unfold INT_MIN, INT_MAX, int_of_long. intros H.
  rewrite Z.mod_small; lia.
Qed.

Lemma quot_floor (a b : Z) : 0 <= a -> 0 < b -> Z.quot a b = a / b.
Proof. intros. now apply Z.quot_div_nonneg. Qed.

Lemma percent_floor (a b : Z) :
  0 <= a -> 0 < b -> a * 100 / b <= INT_MAX ->
  int_of_long (Z.quot (a * 100) b) = a * 100 / b.
Proof.
  intros Ha Hb Hfit. rewrite quot_floor by lia.
  apply int_of_long_small. split; [|assumption].
  assert (0 <= a * 100 / b) by (apply Z.div_pos; lia).
  unfold INT_MIN. lia.
Qed.

(** * The claims *)

(** ** Percentages *)

(** C1, as amended. Whenever [parse_meminfo] returns a snapshot, the totals
    are the MemTotal and SwapTotal entries, and the percentages are C
    quotients, truncated toward zero and stored in an [int]:
    MemAvailablePercent is (available * 100) / MemTotalKiB, and
    SwapFreePercent is 0 when SwapTotalKiB is not positive, else
    (SwapFree * 100) / SwapTotalKiB. The product by 100 is taken before the
    division. For a non-negative dividend, a positive total and a quotient
    within [int] the percentage is the floor of the exact quotient. *)
Theorem C1_percentages (e : Z) (f : meminfo_file) (g : globals) m g' :
  parse_meminfo e f g = Returns m g' ->
  let buf := c_str (fread f) in
  let available := available_kib e buf in
  let swap_free := entry e (str "SwapFree:") buf in
  MemTotalKiB m = entry e (str "MemTotal:") buf /\
  SwapTotalKiB m = entry e (str "SwapTotal:") buf /\
  MemAvailablePercent m =
    int_of_long (Z.quot (available * 100) (MemTotalKiB m)) /\
  (0 <= available -> 0 < MemTotalKiB m ->
   available * 100 / MemTotalKiB m <= INT_MAX ->
   MemAvailablePercent m = available * 100 / MemTotalKiB m) /\
  (SwapTotalKiB m <= 0 -> SwapFreePercent m = 0) /\
  (0 < SwapTotalKiB m ->
   SwapFreePercent m =
     int_of_long (Z.quot (swap_free * 100) (SwapTotalKiB m))) /\
  (0 < SwapTotalKiB m -> 0 <= swap_free ->
   swap_free * 100 / SwapTotalKiB m <= INT_MAX ->
   SwapFreePercent m = swap_free * 100 / SwapTotalKiB m).
Proof.
  intros H buf available swap_free.
  apply parse_meminfo_Returns in H as (_ & _ & H & _).
  fold buf in H. fold available in H. fold swap_free in H.
  apply snapshot_Returns in H
    as (_ & _ & _ & Hmt & Hswt & Hpc & Hsw & _).
  rewrite Hmt, Hswt, Hpc, Hsw.
  repeat split; auto.
  - intros. now apply percent_floor.
  - intros Hle. destruct (Z.ltb_spec 0 (entry e (str "SwapTotal:") buf));
      [lia|reflexivity].
  - intros Hlt. apply Z.ltb_lt in Hlt. now rewrite Hlt.
  - intros Hlt Hsf Hfit. pose proof Hlt as Hlt'.
    apply Z.ltb_lt in Hlt'. rewrite Hlt'. now apply percent_floor.
Qed.

Lemma C1_percentages_witness :
  exists m g',
    parse_meminfo 0 (readable meminfo_recent) startup = Returns m g' /\
    MemAvailablePercent m = 8192 * 100 / 16384 /\
    SwapFreePercent m = 1024 * 100 / 2048.
Proof.
  destruct (parse_meminfo 0 (readable meminfo_recent) startup)
    as [m g'| |] eqn:E; try (vm_compute in E; discriminate).
  exists m, g'. split; [reflexivity|].
  destruct (C1_percentages 0 _ _ _ _ E)
    as (Hmt & Hswt & _ & Hpc & _ & _ & Hsw).
  change (entry 0 (str "MemTotal:") (c_str (fread (readable meminfo_recent))))
    with 16384 in Hmt.
  change (entry 0 (str "SwapTotal:") (c_str (fread (readable meminfo_recent))))
    with 2048 in Hswt.
  rewrite Hmt in Hpc. rewrite Hswt in Hsw.
  split.
  - apply Hpc; vm_compute; congruence.
  - apply Hsw; vm_compute; congruence.
Defined.

(** C1 as stated fails on a blob that [parse_meminfo] accepts: with
    MemAvailable -5 and MemTotal 3 the snapshot holds -166, the quotient
    truncated toward zero, where the floor of -500 / 3 is -167. *)
Lemma C1_counterexample :
  exists m g',
    parse_meminfo 0 (readable meminfo_negative) startup = Returns m g' /\
    available_kib 0 (c_str (fread (readable meminfo_negative))) = -5 /\
    MemTotalKiB m = 3 /\
    MemAvailablePercent m = -166 /\
    MemAvailablePercent m <> (-5 * 100) / 3.
Proof.
  eexists; eexists. split; [vm_compute; reflexivity|].
  repeat split; vm_compute; congruence.
Qed.

(** ** Fields of concrete blobs *)

Lemma not_occurs_intro (label blob : cstring) :
  strstr blob label = None -> ~ occurs label blob.
Proof. apply strstr_None. Qed.

Lemma field_intro (label blob ws sg ds tl : cstring) (k : Z) :
  strstr blob label = Some (label ++ ws ++ sg ++ ds ++ tl) ->
  forallb isspace ws = true -> sign_text sg k ->
  ds <> [] -> forallb isdigit ds = true -> no_digit_ahead tl ->
  field label blob (k * decimal ds).
Proof.
  intros Hhit Hws Hsg Hne Hds Htl.
  apply strstr_Some in Hhit as (pre & post & Hpost & Hfirst).
  apply app_inv_head in Hpost. subst post.
  exists pre, (ws ++ sg ++ ds ++ tl). split; [assumption|].
  exists ws, sg, k, ds, tl. rewrite forallb_forall in Hws, Hds.
  repeat split; auto; apply Forall_forall; auto.
Qed.

(** Settles [field label blob v] for a concrete blob, given the white
    space, the sign and the digits that follow the label. *)
Ltac field_here ws sg ds k :=
  eapply (field_intro _ _ ws sg ds _ k);
  [ lazy; reflexivity
  | reflexivity
  | constructor
  | discriminate
  | reflexivity
  | lazy; reflexivity ].

(** ** The fallback estimator *)

Lemma estimate_missing_absent (e : Z) (name buf : cstring) :
  In name [str "Cached:"; str "MemFree:"; str "Buffers:"; str "Shmem:"] ->
  ~ occurs name buf -> estimate_missing e buf = true.
Proof.
  intros Hin Habs. apply (entry_absent e) in Habs.
  unfold estimate_missing.
  destruct Hin as [<-|[<-|[<-|[<-|[]]]]]; rewrite Habs; simpl;
    repeat rewrite orb_true_r; reflexivity.
Qed.

(** C2, as amended. For a blob without the label MemAvailable, whenever
    the reader obtains the available memory, it is the estimate
    MemFree + Cached + Buffers - Shmem of the four entries, none of which
    is the sentinel -1. With the four fields present, of values other than
    the sentinel and within [long], and sums within [long], the reader
    returns that sum; 100, 50, 20 and 10 give 160. A snapshot that
    [parse_meminfo] returns for such a blob is computed from the
    estimate. *)
Theorem C2_fallback_estimate (e : Z) (buf : cstring) (g : globals) :
  ~ occurs (str "MemAvailable:") buf ->
  (forall v g', mem_available e buf g = Returns v g' ->
     v = estimate e buf /\ estimate_missing e buf = false) /\
  (forall MemFree Cached Buffers Shmem,
     field (str "MemFree:") buf MemFree ->
     field (str "Cached:") buf Cached ->
     field (str "Buffers:") buf Buffers ->
     field (str "Shmem:") buf Shmem ->
     MemFree <> -1 -> Cached <> -1 -> Buffers <> -1 -> Shmem <> -1 ->
     in_long MemFree = true -> in_long Cached = true ->
     in_long Buffers = true -> in_long Shmem = true ->
     in_long (MemFree + Cached) = true ->
     in_long (MemFree + Cached + Buffers) = true ->
     in_long (MemFree + Cached + Buffers - Shmem) = true ->
     exists g',
       mem_available e buf g =
       Returns (MemFree + Cached + Buffers - Shmem) g') /\
  (field (str "MemFree:") buf 100 ->
   field (str "Cached:") buf 50 ->
   field (str "Buffers:") buf 20 ->
   field (str "Shmem:") buf 10 ->
   exists g', mem_available e buf g = Returns 160 g') /\
  (forall f g0 m g',
     c_str (fread f) = buf -> parse_meminfo e f g0 = Returns m g' ->
     MemAvailableMiB m = int_of_long (Z.quot (estimate e buf) 1024) /\
     MemAvailablePercent m =
       int_of_long (Z.quot (estimate e buf * 100) (MemTotalKiB m))).
Proof.
  intros Habs.
  pose proof (entry_absent e _ _ Habs) as HMA.
  destruct (mem_available_eq e buf g) as (g' & Q & E).
  rewrite HMA in E. simpl in E.
  assert (Hsum : forall MemFree Cached Buffers Shmem,
     field (str "MemFree:") buf MemFree ->
     field (str "Cached:") buf Cached ->
     field (str "Buffers:") buf Buffers ->
     field (str "Shmem:") buf Shmem ->
     MemFree <> -1 -> Cached <> -1 -> Buffers <> -1 -> Shmem <> -1 ->
     in_long MemFree = true -> in_long Cached = true ->
     in_long Buffers = true -> in_long Shmem = true ->
     in_long (MemFree + Cached) = true ->
     in_long (MemFree + Cached + Buffers) = true ->
     in_long (MemFree + Cached + Buffers - Shmem) = true ->
     exists g',
       mem_available e buf g =
       Returns (MemFree + Cached + Buffers - Shmem) g').
  { intros mf c b s Fmf Fc Fb Fs Nmf Nc Nb Ns Lmf Lc Lb Ls L1 L2 L3.
    exists (warned g'). rewrite E.
    unfold estimate_missing, estimate_in_long, estimate.
    rewrite (entry_field e _ _ _ Fmf Lmf), (entry_field e _ _ _ Fc Lc),
      (entry_field e _ _ _ Fb Lb), (entry_field e _ _ _ Fs Ls).
    apply Z.eqb_neq in Nmf, Nc, Nb, Ns.
    rewrite Nmf, Nc, Nb, Ns, L1, L2, L3. reflexivity. }
  split; [|split; [|split]].
  - intros v g1 Hret. rewrite Hret in E.
    destruct (estimate_missing e buf); [discriminate|].
    destruct (estimate_in_long e buf); [|discriminate].
    injection E as -> _. auto.
  - exact Hsum.
  - intros Fmf Fc Fb Fs.
    apply (Hsum 100 50 20 10); auto; try discriminate; reflexivity.
  - intros f g0 m g1 Hbuf Hret.
    apply parse_meminfo_Returns in Hret as (_ & _ & S & _).
    rewrite Hbuf in S. unfold available_kib in S. rewrite HMA in S.
    simpl in S.
    apply snapshot_Returns in S
      as (_ & _ & _ & -> & _ & Hpc & _ & _ & Hmib & _).
    now split.
Qed.

Lemma C2_fallback_estimate_witness :
  ~ occurs (str "MemAvailable:") (c_str meminfo_old) /\
  exists g', mem_available 0 (c_str meminfo_old) startup = Returns 160 g'.
Proof.
  assert (H : ~ occurs (str "MemAvailable:") (c_str meminfo_old))
    by (apply not_occurs_intro; vm_compute; reflexivity).
  split; [exact H|].
  destruct (C2_fallback_estimate 0 _ startup H) as (_ & _ & H160 & _).
  apply H160.
  - field_here (str "          ") (@nil ascii) (str "100") 1.
  - field_here (str "            ") (@nil ascii) (str "50") 1.
  - field_here (str "           ") (@nil ascii) (str "20") 1.
  - field_here (str "             ") (@nil ascii) (str "10") 1.
Defined.

(** C2 as stated fails: the blob has no MemAvailable and holds MemFree
    100, Cached 50, Buffers 20 and Shmem -1, and the reader does not
    return 100 + 50 + 20 - (-1) = 171, nor any other value: the Shmem of
    -1 is taken as not found. *)
Lemma C2_counterexample :
  ~ occurs (str "MemAvailable:") (c_str meminfo_shmem_minus_one) /\
  field (str "MemFree:") (c_str meminfo_shmem_minus_one) 100 /\
  field (str "Cached:") (c_str meminfo_shmem_minus_one) 50 /\
  field (str "Buffers:") (c_str meminfo_shmem_minus_one) 20 /\
  field (str "Shmem:") (c_str meminfo_shmem_minus_one) (-1) /\
  forall v g',
    mem_available 0 (c_str meminfo_shmem_minus_one) startup
    <> Returns v g'.
Proof.
  split; [apply not_occurs_intro; vm_compute; reflexivity|].
  split; [field_here (str "          ") (@nil ascii) (str "100") 1|].
  split; [field_here (str "            ") (@nil ascii) (str "50") 1|].
  split; [field_here (str "           ") (@nil ascii) (str "20") 1|].
  split; [field_here (str "             ") [minus_sign] (str "1") (-1)|].
  intros v g'. vm_compute. discriminate.
Qed.

(** ** The field extractor *)

(** C3, as amended. [get_entry] returns the sentinel -1 when the label does
    not occur in the blob, and also when the integer that follows the first
    occurrence of the label lies outside [long] (then with a diagnostic);
    when that integer lies within [long], [get_entry] returns it, so that a
    field of value -1 gives the sentinel as well. *)
Theorem C3_get_entry (e : Z) (name buf : cstring) (g : globals) :
  (~ occurs name buf -> get_entry e name buf g = Returns (-1) g) /\
  (forall v, field name buf v -> in_long v = true ->
             get_entry e name buf g = Returns v g) /\
  (forall v, field name buf v -> in_long v = false ->
             get_entry e name buf g = Returns (-1) (log perror_strtol g)).
Proof.
  repeat split.
  - apply get_entry_absent.
  - intros v. apply get_entry_field.
  - intros v. apply get_entry_out_of_long.
Qed.

Lemma C3_get_entry_witness :
  get_entry 0 (str "MemTotal:") (c_str meminfo_recent) startup
  = Returns 16384 startup.
Proof.
  destruct (C3_get_entry 0 (str "MemTotal:") (c_str meminfo_recent) startup)
    as (_ & H & _).
  apply H; [|reflexivity].
  field_here (str "       ") (@nil ascii) (str "16384") 1.
Defined.

(** C3 as stated fails: the label MemAvailable occurs and an integer
    follows it, and still [get_entry] gives the "not found" value. *)
Lemma C3_counterexample :
  occurs (str "MemAvailable:") (c_str meminfo_minus_one) /\
  field (str "MemAvailable:") (c_str meminfo_minus_one) (-1) /\
  get_entry 0 (str "MemAvailable:") (c_str meminfo_minus_one) startup
  = Returns (-1) startup /\
  get_entry 0 (str "MemAvailable:") (c_str meminfo_old) startup
  = Returns (-1) startup.
Proof.
  assert (F : field (str "MemAvailable:") (c_str meminfo_minus_one) (-1))
    by field_here (str "      ") [minus_sign] (str "1") (-1).
  repeat split; try (vm_compute; reflexivity); [|exact F].
  destruct F as (pre & post & (E & _) & _). now exists pre, post.
Qed.

(** Where no digit follows the label, the result rests on what [strtol]
    leaves in [errno]: 0 is returned when it leaves [errno] alone. *)
Remark get_entry_no_digits :
  get_entry 0 (str "MemTotal:") (str "MemTotal: kB") startup
  = Returns 0 startup /\
  get_entry EINVAL (str "MemTotal:") (str "MemTotal: kB") startup
  = Returns (-1) (log perror_strtol startup).
Proof. split; reflexivity. Qed.

(** ** Range of the percentages *)

(** C4, as amended. Whenever [parse_meminfo] returns a snapshot,
    MemAvailablePercent lies in [0,100] provided 0 <= available <=
    MemTotalKiB, and SwapFreePercent is 0 when SwapTotalKiB is 0. The
    converse does not hold: for a positive SwapTotalKiB and
    0 <= SwapFree <= SwapTotalKiB the percentage is 0 exactly when
    SwapFree * 100 < SwapTotalKiB. *)
Theorem C4_percent_range (e : Z) (f : meminfo_file) (g : globals) m g' :
  parse_meminfo e f g = Returns m g' ->
  let available := available_kib e (c_str (fread f)) in
  let swap_free := entry e (str "SwapFree:") (c_str (fread f)) in
  (0 <= available <= MemTotalKiB m -> 0 <= MemAvailablePercent m <= 100) /\
  (SwapTotalKiB m = 0 -> SwapFreePercent m = 0) /\
  (0 < SwapTotalKiB m -> 0 <= swap_free <= SwapTotalKiB m ->
   (SwapFreePercent m = 0 <-> swap_free * 100 < SwapTotalKiB m)).
Proof.
  intros H available swap_free.
  apply parse_meminfo_Returns in H as (_ & _ & H & _).
  fold available in H. fold swap_free in H.
  apply snapshot_Returns in H
    as (_ & Hnz & _ & Hmt & Hswt & Hpc & Hsw & _).
  rewrite Hmt, Hswt, Hpc, Hsw.
  assert (Hrange : forall a b, 0 <= a <= b -> 0 < b ->
            int_of_long (Z.quot (a * 100) b) = a * 100 / b /\
            0 <= a * 100 / b <= 100).
  { intros a b Ha Hb. rewrite quot_floor by lia.
    assert (0 <= a * 100 / b) by (apply Z.div_pos; lia).
    assert (a * 100 / b <= 100) by (apply Z.div_le_upper_bound; lia).
    rewrite int_of_long_small; [lia|]. unfold INT_MIN, INT_MAX. lia. }
  split; [|split].
  - intros [Hlo Hhi].
    destruct (Hrange available (entry e (str "MemTotal:") (c_str (fread f))))
      as [-> Hb]; lia.
  - now intros ->.
  - intros Hpos Hsf. apply Z.ltb_lt in Hpos as Hpos'. rewrite Hpos'.
    destruct (Hrange swap_free
                (entry e (str "SwapTotal:") (c_str (fread f))))
      as [-> Hb]; try lia.
    rewrite Z.div_small_iff by lia. lia.
Qed.

Lemma C4_percent_range_witness :
  exists m g',
    parse_meminfo 0 (readable meminfo_old) startup = Returns m g' /\
    0 <= MemAvailablePercent m <= 100 /\ SwapFreePercent m = 0.
Proof.
  destruct (parse_meminfo 0 (readable meminfo_old) startup)
    as [m g'| |] eqn:E; try (vm_compute in E; discriminate).
  exists m, g'. split; [reflexivity|].
  destruct (C4_percent_range 0 _ _ _ _ E) as (Hpc & Hsw & _).
  vm_compute in E. injection E as <- <-.
  split.
  - apply Hpc. vm_compute. split; congruence.
  - apply Hsw. reflexivity.
Defined.

(** C4 as stated fails twice. With all of the swap in use the percentage
    is 0 although SwapTotalKiB is 1000; and with available -5 <= MemTotal 3
    the percentage is -166, outside [0,100]. *)
Lemma C4_counterexample :
  (exists m g',
     parse_meminfo 0 (readable meminfo_swap_full) startup = Returns m g' /\
     SwapFreePercent m = 0 /\ SwapTotalKiB m = 1000) /\
  (exists m g',
     parse_meminfo 0 (readable meminfo_negative) startup = Returns m g' /\
     available_kib 0 (c_str (fread (readable meminfo_negative)))
     <= MemTotalKiB m /\
     ~ 0 <= MemAvailablePercent m <= 100).
Proof.
  split; eexists; eexists; (split; [vm_compute; reflexivity|]).
  - split; reflexivity.
  - split; vm_compute; [congruence|]. intros [H _]. now apply H.
Qed.

(** ** Fatal exits *)

Lemma fread_nil (f : meminfo_file) : fread f = [] <-> contents f = [].
Proof.
  unfold fread.
  assert (H : exists n, (sizeof_buf - 1)%nat = S n)
    by (exists (Z.to_nat 8190); vm_compute; reflexivity).
  destruct H as [n ->].
  destruct (contents f); simpl; split; auto; discriminate.
Qed.

Lemma unreadable_iff (f : meminfo_file) (g : globals) :
  unreadable f g = true <->
  (fd g = false /\ can_open f = false) \/ contents f = [].
Proof.
  unfold unreadable. rewrite orb_true_iff, negb_true_iff, orb_false_iff.
  rewrite Z.eqb_eq, <- fread_nil.
  destruct (fread f); simpl; split; intros [H|H]; auto; try lia;
    discriminate.
Qed.

Lemma mandatory_missing_absent (e : Z) (name buf : cstring) :
  In name [str "MemTotal:"; str "SwapTotal:"; str "SwapFree:"] ->
  ~ occurs name buf -> mandatory_missing e buf = true.
Proof.
  intros Hin Habs. apply (entry_absent e) in Habs.
  unfold mandatory_missing.
  destruct Hin as [<-|[<-|[<-|[]]]]; rewrite Habs; simpl;
    repeat rewrite orb_true_r; reflexivity.
Qed.

(** C5 fails on the code. [parse_meminfo] ends the process with status
    102 exactly when /proc/meminfo cannot be opened or yields zero bytes,
    and with no other status. When the source is read and the label of
    MemTotal, SwapTotal or SwapFree is absent from the buffer, or
    MemAvailable and one of Cached, MemFree, Buffers and Shmem are, the
    call reaches [fatal] at line 41, whose format has a [%s] and no
    argument: the behaviour is undefined, where the claim has an exit with
    the status of a missing field. *)
Theorem C5_fatal_exits (e : Z) (f : meminfo_file) (g : globals) :
  let buf := c_str (fread f) in
  let no_source := (fd g = false /\ can_open f = false) \/ contents f = [] in
  (forall code g', parse_meminfo e f g = Exits code g' -> code = 102) /\
  (no_source <-> exists g', parse_meminfo e f g = Exits 102 g') /\
  (~ no_source ->
   forall name,
     In name [str "MemTotal:"; str "SwapTotal:"; str "SwapFree:"] ->
     ~ occurs name buf ->
     parse_meminfo e f g = Undefined missing_argument) /\
  (~ no_source ->
   ~ occurs (str "MemAvailable:") buf ->
   forall name,
     In name [str "Cached:"; str "MemFree:"; str "Buffers:"; str "Shmem:"] ->
     ~ occurs name buf ->
     parse_meminfo e f g = Undefined missing_argument).
Proof.
  intros buf no_source.
  destruct (parse_meminfo_eq e f g) as (g0 & _ & E).
  fold buf in E. cbv zeta in E.
  pose proof (unreadable_iff f g) as Hun. fold no_source in Hun.
  assert (Hsnap : forall mt swt swf av g1 code g',
             snapshot mt swt swf av g1 <> Exits code g').
  { intros mt swt swf av g1 code g'.
    unfold snapshot, bind, long_mul, long_div, long_result, ret, undefined.
    repeat match goal with
           | |- context [if ?c then _ else _] => destruct c
           end; discriminate. }
  assert (Hexit : forall code g', parse_meminfo e f g = Exits code g' ->
                                  code = 102 /\ unreadable f g = true).
  { intros code g' H. rewrite H in E.
    destruct (unreadable f g); [injection E as -> _; auto|].
    destruct (mandatory_missing e buf); [discriminate|].
    destruct (entry e (str "MemAvailable:") buf =? -1).
    - destruct (estimate_missing e buf); [discriminate|].
      destruct (estimate_in_long e buf); [|discriminate].
      symmetry in E. now apply Hsnap in E.
    - symmetry in E. now apply Hsnap in E. }
  split; [|split; [|split]].
  - intros code g' H. now apply Hexit in H.
  - split.
    + intros H. apply Hun in H. rewrite H in E. now exists g0.
    + intros [g' H]. apply Hun. now apply Hexit in H.
  - intros Hsrc name Hin Habs.
    destruct (unreadable f g); [exfalso; apply Hsrc, Hun; reflexivity|].
    now rewrite (mandatory_missing_absent e name buf Hin Habs) in E.
  - intros Hsrc HMA name Hin Habs.
    destruct (unreadable f g); [exfalso; apply Hsrc, Hun; reflexivity|].
    destruct (mandatory_missing e buf); [assumption|].
    rewrite (entry_absent e _ _ HMA) in E. simpl in E.
    now rewrite (estimate_missing_absent e name buf Hin Habs) in E.
Qed.

Lemma C5_fatal_exits_witness :
  parse_meminfo 0 (readable meminfo_no_total) startup
  = Undefined missing_argument /\
  (exists g',
     parse_meminfo 0 {| can_open := false; contents := meminfo_recent |}
       startup = Exits 102 g').
Proof.
  split.
  - destruct (C5_fatal_exits 0 (readable meminfo_no_total) startup)
      as (_ & _ & H & _).
    apply (H ltac:(intros [[_ H']|H']; discriminate) (str "MemTotal:")).
    + left; reflexivity.
    + apply not_occurs_intro. vm_compute. reflexivity.
  - destruct (C5_fatal_exits 0 {| can_open := false;
                                  contents := meminfo_recent |} startup)
      as (_ & H & _).
    apply H. left. split; reflexivity.
Defined.

(** ** Liveness *)

Lemma skip_space_keep (c : ascii) (s : list ascii) :
  isspace c = false -> skip_space (c :: s) = c :: s.
Proof. unfold skip_space; simpl. now intros ->. Qed.

Lemma skip_space_drop (c : ascii) (s : list ascii) :
  isspace c = true -> skip_space (c :: s) = skip_space s.
Proof.
  unfold skip_space; simpl. intros ->. now destruct (span isspace s).
Qed.

(** On a status line whose name holds no white space, the format reads the
    state character. *)
Lemma fscanf_reads_state (id name rest : list ascii) (c : ascii) :
  id <> [] -> Forall (fun d => isdigit d = true) id ->
  name <> [] -> Forall (fun a => negb (isspace a) = true) name ->
  isspace c = false ->
  fscanf_d_s_c (id ++ space :: name ++ space :: c :: rest) = (1, Some c).
Proof.
  intros Hid Hdigits Hname Hword Hc.
  destruct id as [|d id]; [congruence|].
  destruct name as [|a name]; [congruence|].
  pose proof (Forall_inv Hdigits) as Hd. simpl in Hd.
  pose proof (Forall_inv Hword) as Ha. simpl in Ha.
  apply negb_true_iff in Ha.
  assert (Hdig : span isdigit
                    (d :: id ++ space :: a :: name ++ space :: c :: rest)
                  = (d :: id, space :: a :: name ++ space :: c :: rest))
    by (apply (span_app isdigit (d :: id)); [assumption|reflexivity]).
  assert (Hnam : span (fun c0 => negb (isspace c0))
                    (a :: name ++ space :: c :: rest)
                  = (a :: name, space :: c :: rest))
    by (apply (span_app _ (a :: name)); [assumption|reflexivity]).
  unfold fscanf_d_s_c, scan_skip_d. simpl app.
  rewrite (skip_space_keep d) by now apply digit_not_space.
  rewrite read_sign_digit by assumption.
  rewrite Hdig.
  rewrite (skip_space_drop space) by reflexivity.
  rewrite (skip_space_keep a) by assumption.
  unfold scan_skip_s. rewrite (skip_space_keep a) by assumption.
  rewrite Hnam.
  simpl snd. rewrite (skip_space_drop space) by reflexivity.
  rewrite (skip_space_keep c) by assumption.
  reflexivity.
Qed.

Lemma fscanf_d_s_c_cases (f : list ascii) :
  (exists c, fscanf_d_s_c f = (1, Some c)) \/
  (exists res, fscanf_d_s_c f = (res, None) /\ res < 1).
Proof.
  unfold fscanf_d_s_c, EOF.
  destruct (scan_skip_d f) as [u s1| |];
    [|right; eexists; split; [reflexivity|lia]..].
  destruct (scan_skip_s (skip_space s1)) as [u' s2| |];
    [|right; eexists; split; [reflexivity|lia]..].
  destruct (scan_c (skip_space s2)) as [c s3| |];
    [|right; eexists; split; [reflexivity|lia]..].
  left. now exists c.
Qed.

(** C6. For every process id: when /proc/[pid]/stat cannot be opened,
    [is_alive] returns false and prints nothing; when the state character
    read is Z it returns false; when the read assigns no item it prints a
    warning and returns false; for any other state character read it
    returns true. It never ends the process. On a status line whose name
    is one word, the state character read is the one after the name. *)
Theorem C6_is_alive (proc : procfs) (pid : Z) (g : globals) :
  (proc pid = None -> is_alive proc pid g = Returns false g) /\
  (forall f, proc pid = Some f -> fscanf_d_s_c f = (1, Some zombie) ->
     is_alive proc pid g
     = Returns false (log (debug_process_state zombie) g)) /\
  (forall f c, proc pid = Some f -> fscanf_d_s_c f = (1, Some c) ->
     c <> zombie ->
     is_alive proc pid g = Returns true (log (debug_process_state c) g)) /\
  (forall f res state, proc pid = Some f ->
     fscanf_d_s_c f = (res, state) -> res < 1 ->
     is_alive proc pid g = Returns false (log warn_fscanf_failed g)) /\
  (forall code g', is_alive proc pid g <> Exits code g') /\
  (forall id name rest c,
     id <> [] -> Forall (fun d => isdigit d = true) id ->
     name <> [] -> Forall (fun a => negb (isspace a) = true) name ->
     isspace c = false ->
     proc pid = Some (id ++ space :: name ++ space :: c :: rest) ->
     exists g', is_alive proc pid g
                = Returns (negb (Ascii.eqb c zombie)) g').
Proof.
  unfold is_alive. repeat split.
  - now intros ->.
  - intros f -> ->. reflexivity.
  - intros f c -> -> Hc. simpl.
    unfold bind, debug, print.
    apply Ascii.eqb_neq in Hc. now rewrite Hc.
  - intros f res state -> -> Hres.
    apply Z.ltb_lt in Hres. now rewrite Hres.
  - intros code g'. destruct (proc pid) as [f|]; [|discriminate].
    destruct (fscanf_d_s_c_cases f) as [[c ->]|(res & -> & Hres)].
    + simpl. unfold bind, debug, print.
      destruct (Ascii.eqb c zombie); discriminate.
    + apply Z.ltb_lt in Hres. rewrite Hres. discriminate.
  - intros id name rest c Hid Hdigits Hname Hword Hc ->.
    rewrite fscanf_reads_state by assumption. simpl.
    unfold bind, debug, print. eexists.
    destruct (Ascii.eqb c zombie); reflexivity.
Qed.

Lemma C6_is_alive_witness :
  is_alive (only 10751 stat_cat) 10751 startup
  = Returns true (log (debug_process_state "R"%char) startup) /\
  is_alive (only 10751 stat_cat) 4 startup = Returns false startup.
Proof.
  destruct (C6_is_alive (only 10751 stat_cat) 10751 startup)
    as (_ & _ & Halive & _).
  destruct (C6_is_alive (only 10751 stat_cat) 4 startup) as (Hgone & _).
  split.
  - apply (Halive stat_cat); [reflexivity|reflexivity|discriminate].
  - apply Hgone. reflexivity.
Defined.

(** C7 fails on the code: [%*s] ends the name at its first white space.
    For the zombie "Web Content" the character read is the C of Content,
    and [is_alive] returns true; for the sleeping "my Zed" the character
    read is Z, and [is_alive] returns false. *)
Theorem C7_name_with_space :
  fscanf_d_s_c stat_web_content_zombie = (1, Some "C"%char) /\
  is_alive (only 4242 stat_web_content_zombie) 4242 startup
  = Returns true (log (debug_process_state "C"%char) startup) /\
  fscanf_d_s_c stat_zed = (1, Some zombie) /\
  is_alive (only 512 stat_zed) 512 startup
  = Returns false (log (debug_process_state zombie) startup).
Proof. repeat split. Qed.

(** ** The warning of the fallback path *)

Lemma warned_once_quiet (g g' : globals) :
  quiet g g' -> warned_once g -> warned_once g'.
Proof. unfold warned_once. intros [-> ->]. auto. Qed.

Lemma warned_once_warned (g : globals) :
  warned_once g ->
  warned_once (warned g) /\
  warnings (warned g) = (if (warnings g =? 0)%nat then 1 else warnings g)%nat.
Proof.
  unfold warned_once, warned.
  intros [[Hflag Hcount]|[Hflag Hcount]]; rewrite Hflag, Hcount; simpl.
  - unfold warnings in *. simpl. rewrite filter_app, length_app, Hcount.
    auto.
  - rewrite Hflag, Hcount. auto.
Qed.

Lemma is_alive_quiet (proc : procfs) (pid : Z) (g : globals) :
  exists b g', is_alive proc pid g = Returns b g' /\ quiet g g'.
Proof.
  unfold is_alive. destruct (proc pid) as [f|].
  - destruct (fscanf_d_s_c_cases f) as [[c ->]|(res & -> & Hres)].
    + simpl. unfold bind, debug, print.
      destruct (Ascii.eqb c zombie); eexists; eexists;
        (split; [reflexivity|auto with earlyoom]).
    + apply Z.ltb_lt in Hres. rewrite Hres.
      eexists; eexists; (split; [reflexivity|auto with earlyoom]).
  - exists false, g. auto with earlyoom.
Qed.

(** What one call to [parse_meminfo] does to the count of warnings. *)
Lemma parse_meminfo_warnings (e : Z) (f : meminfo_file) (g : globals) :
  warned_once g ->
  match parse_meminfo e f g with
  | Returns _ g' =>
      warned_once g' /\
      warnings g' =
      (if (entry e (str "MemAvailable:") (c_str (fread f)) =? -1)%Z
          && (warnings g =? 0)%nat
       then 1 else warnings g)%nat
  | Exits _ g' => warned_once g' /\ warnings g' = warnings g
  | Undefined _ => True
  end.
Proof.
  intros Hinv. destruct (parse_meminfo_eq e f g) as (g0 & Q & E).
  pose proof (warned_once_quiet _ _ Q Hinv) as Hinv0.
  destruct Q as [_ Qw].
  rewrite E. cbv zeta.
  destruct (unreadable f g); [auto|].
  destruct (mandatory_missing e (c_str (fread f))); [auto|].
  destruct (entry e (str "MemAvailable:") (c_str (fread f)) =? -1).
  - destruct (estimate_missing e (c_str (fread f))); [auto|].
    destruct (estimate_in_long e (c_str (fread f))); [|exact I].
    destruct (snapshot _ _ _ _ (warned g0)) as [m g'| |] eqn:S.
    + apply snapshot_Returns in S as (-> & _).
      destruct (warned_once_warned g0 Hinv0) as [H1 H2].
      rewrite Qw in H2. auto.
    + exfalso. revert S.
      unfold snapshot, bind, long_mul, long_div, long_result, ret, undefined.
      repeat match goal with
             | |- context [if ?c then _ else _] => destruct c
             end; discriminate.
    + exact I.
  - destruct (snapshot _ _ _ _ g0) as [m g'| |] eqn:S.
    + apply snapshot_Returns in S as (-> & _). auto.
    + exfalso. revert S.
      unfold snapshot, bind, long_mul, long_div, long_result, ret, undefined.
      repeat match goal with
             | |- context [if ?c then _ else _] => destruct c
             end; discriminate.
    + exact I.
Qed.

Lemma do_call_warned_once (e : Z) (c : call) (g : globals) :
  warned_once g ->
  match do_call e c g with
  | Returns _ g' | Exits _ g' => warned_once g'
  | Undefined _ => True
  end.
Proof.
  intros Hinv. destruct c as [f|proc pid]; unfold do_call, bind.
  - pose proof (parse_meminfo_warnings e f g Hinv) as H.
    destruct (parse_meminfo e f g); simpl; tauto.
  - destruct (is_alive_quiet proc pid g) as (b & g' & -> & Q).
    simpl. eapply warned_once_quiet; eassumption.
Qed.

Lemma run_warned_once (e : Z) (calls : list call) (g : globals) :
  warned_once g ->
  match run e calls g with
  | Returns _ g' | Exits _ g' => warned_once g'
  | Undefined _ => True
  end.
Proof.
  revert g; induction calls as [|c calls IH]; intros g Hinv; simpl.
  - exact Hinv.
  - unfold bind. pose proof (do_call_warned_once e c g Hinv) as H.
    destruct (do_call e c g) as [u g'|code g'|]; [now apply IH|exact H|exact I].
Qed.

Lemma warned_once_startup : warned_once startup.
Proof. left. split; reflexivity. Qed.

Lemma warned_once_le (g : globals) : warned_once g -> (warnings g <= 1)%nat.
Proof. intros [[_ ->]|[_ ->]]; lia. Qed.

(** C8. In any sequence of calls made from the start of the process, the
    fallback warning has been printed at most once, whether the sequence
    ends with a return or with an exit. A call of [parse_meminfo] that
    returns prints the warning exactly when it takes the fallback path and
    no earlier call has printed it; a call that exits prints none. *)
Theorem C8_warning_once (e : Z) (calls : list call) :
  (forall code g, run e calls startup = Exits code g ->
                  (warnings g <= 1)%nat) /\
  (forall g, run e calls startup = Returns tt g ->
     (warnings g <= 1)%nat /\
     forall f,
       match parse_meminfo e f g with
       | Returns _ g' =>
           (warnings g' <= 1)%nat /\
           warnings g' =
           (if (entry e (str "MemAvailable:") (c_str (fread f)) =? -1)%Z
               && (warnings g =? 0)%nat
            then 1 else warnings g)%nat
       | Exits _ g' => warnings g' = warnings g
       | Undefined _ => True
       end).
Proof.
  pose proof (run_warned_once e calls startup warned_once_startup) as H.
  split.
  - intros code g E. rewrite E in H. now apply warned_once_le.
  - intros g E. rewrite E in H. split; [now apply warned_once_le|].
    intros f. pose proof (parse_meminfo_warnings e f g H) as Hf.
    destruct (parse_meminfo e f g) as [m g'|code g'|]; auto.
    + destruct Hf as [Hinv Hcount]. split; [now apply warned_once_le|auto].
    + tauto.
Qed.

Lemma C8_warning_once_witness :
  exists g1 g2 g3,
    run 0 [call_parse_meminfo (readable meminfo_recent)] startup
    = Returns tt g1 /\ warnings g1 = 0%nat /\
    run 0 [call_parse_meminfo (readable meminfo_recent);
           call_parse_meminfo (readable meminfo_old)] startup
    = Returns tt g2 /\ warnings g2 = 1%nat /\
    run 0 [call_parse_meminfo (readable meminfo_recent);
           call_parse_meminfo (readable meminfo_old);
           call_is_alive (only 10751 stat_cat) 10751;
           call_parse_meminfo (readable meminfo_old)] startup
    = Returns tt g3 /\ (warnings g3 <= 1)%nat.
Proof.
  eexists; eexists; eexists.
  split; [vm_compute; reflexivity|].
  split; [reflexivity|].
  split; [vm_compute; reflexivity|].
  split; [reflexivity|].
  split; [vm_compute; reflexivity|].
  destruct (C8_warning_once 0
              [call_parse_meminfo (readable meminfo_recent);
               call_parse_meminfo (readable meminfo_old);
               call_is_alive (only 10751 stat_cat) 10751;
               call_parse_meminfo (readable meminfo_old)]) as [_ H].
  apply H. vm_compute. reflexivity.
Defined.

(** ** The unguarded division *)

(** C9, as amended. The division by MemTotalKiB has no guard of any
    kind: [parse_meminfo] never returns a snapshot whose MemTotalKiB is 0,
    and that is all the total has to meet. When the source is read, the
    field MemTotal has the value 0, SwapTotal and SwapFree are found and
    the available memory is obtained, with a product by 100 within [long],
    the call divides by zero. The swap percentage is guarded: a snapshot
    with SwapTotalKiB 0 has SwapFreePercent 0. *)
Theorem C9_zero_total (e : Z) (f : meminfo_file) (g : globals) :
  let buf := c_str (fread f) in
  (forall m g', parse_meminfo e f g = Returns m g' ->
     MemTotalKiB m <> 0) /\
  (~ ((fd g = false /\ can_open f = false) \/ contents f = []) ->
   field (str "MemTotal:") buf 0 ->
   entry e (str "SwapTotal:") buf <> -1 ->
   entry e (str "SwapFree:") buf <> -1 ->
   entry e (str "MemAvailable:") buf <> -1 \/
   (estimate_missing e buf = false /\ estimate_in_long e buf = true) ->
   in_long (available_kib e buf * 100) = true ->
   parse_meminfo e f g = Undefined division_by_zero) /\
  (forall m g', parse_meminfo e f g = Returns m g' ->
     SwapTotalKiB m = 0 -> SwapFreePercent m = 0).
Proof.
  intros buf. split; [|split].
  - intros m g' H.
    apply parse_meminfo_Returns in H as (_ & _ & H & _).
    apply snapshot_Returns in H as (_ & Hnz & _ & -> & _).
    exact Hnz.
  - intros Hsrc Hzero Hswt Hswf Hav Hmul.
    destruct (parse_meminfo_eq e f g) as (g0 & _ & E).
    fold buf in E. cbv zeta in E. rewrite E. clear E.
    destruct (unreadable f g) eqn:Hun;
      [exfalso; apply Hsrc, unreadable_iff, Hun|].
    unfold mandatory_missing.
    rewrite (entry_field e _ _ 0 Hzero eq_refl).
    apply Z.eqb_neq in Hswt, Hswf. rewrite Hswt, Hswf. simpl orb.
    rewrite !snapshot_zero_total. unfold available_kib in Hmul.
    destruct (entry e (str "MemAvailable:") buf =? -1) eqn:HMA.
    + destruct Hav as [Hav|[Hmiss Hsum]].
      * apply Z.eqb_neq in Hav. congruence.
      * now rewrite Hmiss, Hsum, Hmul.
    + now rewrite Hmul.
  - intros m g' H Hz.
    apply parse_meminfo_Returns in H as (_ & _ & H & _).
    apply snapshot_Returns in H as (_ & _ & _ & _ & Hswt & _ & -> & _).
    rewrite <- Hswt, Hz. reflexivity.
Qed.

Lemma C9_zero_total_witness :
  parse_meminfo 0 (readable meminfo_zero_total) startup
  = Undefined division_by_zero /\
  exists m g',
    parse_meminfo 0 (readable meminfo_old) startup = Returns m g' /\
    SwapTotalKiB m = 0 /\ SwapFreePercent m = 0.
Proof.
  split.
  - destruct (C9_zero_total 0 (readable meminfo_zero_total) startup)
      as (_ & H & _).
    apply H.
    + intros [[_ H']|H']; discriminate.
    + field_here (str "           ") (@nil ascii) (str "0") 1.
    + vm_compute. congruence.
    + vm_compute. congruence.
    + left. vm_compute. congruence.
    + reflexivity.
  - destruct (parse_meminfo 0 (readable meminfo_old) startup)
      as [m g'| |] eqn:E; try (vm_compute in E; discriminate).
    exists m, g'. split; [reflexivity|].
    destruct (C9_zero_total 0 (readable meminfo_old) startup)
      as (_ & _ & H).
    assert (Hz : SwapTotalKiB m = 0)
      by (vm_compute in E; injection E as <- <-; reflexivity).
    split; [exact Hz|]. exact (H m g' E Hz).
Defined.

(** C9 as stated fails: MemTotal > 0 is not needed. With MemTotal -5 and
    MemAvailable 3 the division is carried out and a snapshot returned,
    with the percentage 300 / -5 = -60. *)
Lemma C9_counterexample :
  exists m g',
    parse_meminfo 0 (readable meminfo_negative_total) startup
    = Returns m g' /\
    MemTotalKiB m = -5 /\ ~ 0 < MemTotalKiB m /\
    MemAvailablePercent m = -60.
Proof.
  eexists; eexists. split; [vm_compute; reflexivity|].
  repeat split. intros H. discriminate.
Qed.

(** ** The sentinel *)

(** C10 fails on the code in its last part. A field whose text is the
    integer -1 cannot be told from a field that is not there: [get_entry]
    returns -1 for it, as it does for any blob without the label, and
    [get_entry_fatal] does for it what it does for an absent label; for
    MemAvailable the reader takes the fallback path. What
    [get_entry_fatal] does then is to call [fatal] at line 41 with a [%s]
    and no argument: the behaviour is undefined, for [get_entry_fatal] and
    for [parse_meminfo] when the field is MemTotal, SwapTotal or SwapFree,
    where the claim has a fatal termination. *)
Theorem C10_sentinel (e : Z) (name buf : cstring) (g : globals) :
  field name buf (-1) ->
  get_entry e name buf g = Returns (-1) g /\
  (forall buf', ~ occurs name buf' ->
                get_entry e name buf' g = get_entry e name buf g) /\
  (forall buf', ~ occurs name buf' ->
                get_entry_fatal e name buf' g
                = get_entry_fatal e name buf g) /\
  get_entry_fatal e name buf g = Undefined missing_argument /\
  (name = str "MemAvailable:" ->
   mem_available e buf g = fallback e buf g) /\
  (In name [str "MemTotal:"; str "SwapTotal:"; str "SwapFree:"] ->
   forall f g0,
     c_str (fread f) = buf ->
     ~ ((fd g0 = false /\ can_open f = false) \/ contents f = []) ->
     parse_meminfo e f g0 = Undefined missing_argument).
Proof.
  intros Hfield.
  pose proof (get_entry_field e name buf (-1) g Hfield eq_refl) as Hget.
  pose proof (entry_field e name buf (-1) Hfield eq_refl) as He.
  split; [exact Hget|].
  split; [intros buf' Habs; now rewrite Hget, get_entry_absent|].
  split.
  { intros buf' Habs.
    rewrite (get_entry_fatal_missing e name buf g He).
    apply get_entry_fatal_missing. now apply entry_absent. }
  split; [now apply get_entry_fatal_missing|].
  split.
  - intros ->. unfold mem_available, bind. now rewrite Hget.
  - intros Hin f g0 Hbuf Hsrc.
    destruct (parse_meminfo_eq e f g0) as (g1 & _ & E).
    rewrite Hbuf in E. cbv zeta in E.
    destruct (unreadable f g0) eqn:Hun;
      [exfalso; apply Hsrc, unreadable_iff, Hun|].
    assert (Hmiss : mandatory_missing e buf = true).
    { unfold mandatory_missing.
      destruct Hin as [<-|[<-|[<-|[]]]]; rewrite He; simpl;
        repeat rewrite orb_true_r; reflexivity. }
    now rewrite Hmiss in E.
Qed.

Lemma C10_sentinel_witness :
  field (str "MemAvailable:") (c_str meminfo_minus_one) (-1) /\
  get_entry 0 (str "MemAvailable:") (c_str meminfo_minus_one) startup
  = get_entry 0 (str "MemAvailable:") (c_str meminfo_old) startup /\
  mem_available 0 (c_str meminfo_minus_one) startup
  = Returns 160 (warned startup).
Proof.
  assert (F : field (str "MemAvailable:") (c_str meminfo_minus_one) (-1))
    by field_here (str "      ") [minus_sign] (str "1") (-1).
  destruct (C10_sentinel 0 _ _ startup F)
    as (_ & Hsame & _ & _ & Hfall & _).
  split; [exact F|]. split.
  - symmetry. apply Hsame. apply not_occurs_intro. vm_compute. reflexivity.
  - rewrite (Hfall eq_refl). vm_compute. reflexivity.
Defined.

(** * Further properties *)

(** ** What [fscanf] reads as a number *)

Lemma span_spec (p : ascii -> bool) (s run rest : cstring) :
  span p s = (run, rest) ->
  s = run ++ rest /\
  Forall (fun c => p c = true) run /\
  match rest with [] => True | c :: _ => p c = false end.
Proof.
  revert run rest; induction s as [|c s IH]; simpl; intros run rest H.
  - injection H as <- <-. auto.
  - destruct (p c) eqn:Hc.
    + destruct (span p s) as [run' rest'].
      injection H as <- <-.
      destruct (IH _ _ eq_refl) as (-> & Hrun & Hrest).
      repeat split; auto.
    + injection H as <- <-. repeat split; auto.
Qed.

Lemma integer_text_then (s : cstring) (v : Z) :
  integer_text s v <-> exists tl, integer_then s v tl.
Proof.
  split.
  - intros (ws & sg & k & ds & tl & H). exists tl, ws, sg, k, ds. exact H.
  - intros (tl & ws & sg & k & ds & H). exists ws, sg, k, ds, tl. exact H.
Qed.

Lemma skip_space_integer (ws sg ds tl : cstring) (k : Z) :
  Forall (fun c => isspace c = true) ws -> sign_text sg k ->
  ds <> [] -> Forall (fun c => isdigit c = true) ds ->
  skip_space (ws ++ sg ++ ds ++ tl) = sg ++ ds ++ tl.
Proof.
  intros Hws Hsg Hne Hds. unfold skip_space.
  rewrite (span_app isspace ws (sg ++ ds ++ tl) Hws); [reflexivity|].
  destruct ds as [|d ds]; [congruence|].
  pose proof (Forall_inv Hds) as Hd. simpl in Hd.
  inversion Hsg; subst; simpl; try reflexivity.
  now apply digit_not_space.
Qed.

Lemma scan_d_integer_then (s : cstring) (v : Z) (tl : cstring) :
  integer_then s v tl -> scan_d s = Matched v tl.
Proof.
  intros (ws & sg & k & ds & -> & Hws & Hsg & Hne & Hds & Htl & ->).
  unfold scan_d. rewrite (skip_space_integer ws sg ds tl k) by assumption.
  destruct ds as [|d ds]; [congruence|].
  pose proof (Forall_inv Hds) as Hd. simpl in Hd.
  assert (Hspan : span isdigit (d :: ds ++ tl) = (d :: ds, tl)).
  { apply (span_app isdigit (d :: ds)); [assumption|]. destruct tl; auto. }
  inversion Hsg; subst; cbn [app].
  - rewrite read_sign_digit, Hspan by assumption. now rewrite Z.mul_1_l.
  - rewrite read_sign_plus, Hspan. now rewrite Z.mul_1_l.
  - rewrite read_sign_minus, Hspan.
    now replace (-1 * decimal (d :: ds)) with (- decimal (d :: ds)) by lia.
Qed.

Lemma scan_skip_d_integer_then (s : cstring) (v : Z) (tl : cstring) :
  integer_then s v tl -> scan_skip_d s = Matched tt tl.
Proof.
  intros (ws & sg & k & ds & -> & Hws & Hsg & Hne & Hds & Htl & ->).
  unfold scan_skip_d. rewrite (skip_space_integer ws sg ds tl k) by assumption.
  destruct ds as [|d ds]; [congruence|].
  pose proof (Forall_inv Hds) as Hd. simpl in Hd.
  assert (Hspan : span isdigit (d :: ds ++ tl) = (d :: ds, tl)).
  { apply (span_app isdigit (d :: ds)); [assumption|]. destruct tl; auto. }
  inversion Hsg; subst; cbn [app].
  - now rewrite read_sign_digit, Hspan by assumption.
  - now rewrite read_sign_plus, Hspan.
  - now rewrite read_sign_minus, Hspan.
Qed.

Lemma read_sign_spec (s : cstring) (neg : bool) (s2 : cstring) :
  read_sign s = (neg, s2) ->
  exists sg k, s = sg ++ s2 /\ sign_text sg k /\
               k = (if neg then -1 else 1).
Proof.
  unfold read_sign. destruct s as [|c s].
  - intros H; injection H as <- <-. exists [], 1. repeat split. constructor.
  - destruct (Ascii.eqb_spec c minus_sign) as [->|_].
    + intros H; injection H as <- <-. exists [minus_sign], (-1).
      repeat split. constructor.
    + destruct (Ascii.eqb_spec c plus_sign) as [->|_];
        intros H; injection H as <- <-.
      * exists [plus_sign], 1. repeat split. constructor.
      * exists [], 1. repeat split. constructor.
Qed.

Lemma scan_d_Matched (s : cstring) (v : Z) (tl : cstring) :
  scan_d s = Matched v tl -> integer_then s v tl.
Proof.
  unfold scan_d, skip_space.
  destruct (span isspace s) as [ws s1] eqn:Hws.
  apply span_spec in Hws as (-> & Hws & _). simpl snd.
  destruct s1 as [|c s1]; [discriminate|].
  destruct (read_sign (c :: s1)) as [neg s2] eqn:Hsign.
  apply read_sign_spec in Hsign as (sg & k & Hs1 & Hsg & Hk).
  destruct (span isdigit s2) as [ds rest] eqn:Hds.
  apply span_spec in Hds as (-> & Hds & Hrest).
  destruct ds as [|d ds]; [destruct rest; discriminate|].
  intros H; injection H as <- <-.
  exists ws, sg, k, (d :: ds). rewrite Hs1.
  repeat split; auto; try discriminate.
  subst k. destruct neg; lia.
Qed.

Lemma scan_skip_d_Matched (s : cstring) (tl : cstring) :
  scan_skip_d s = Matched tt tl -> exists v, integer_then s v tl.
Proof.
  unfold scan_skip_d, skip_space.
  destruct (span isspace s) as [ws s1] eqn:Hws.
  apply span_spec in Hws as (-> & Hws & _). simpl snd.
  destruct s1 as [|c s1]; [discriminate|].
  destruct (read_sign (c :: s1)) as [neg s2] eqn:Hsign.
  apply read_sign_spec in Hsign as (sg & k & Hs1 & Hsg & Hk).
  destruct (span isdigit s2) as [ds rest] eqn:Hds.
  apply span_spec in Hds as (-> & Hds & Hrest).
  destruct ds as [|d ds]; [destruct rest; discriminate|].
  intros H; injection H as <-.
  exists (k * decimal (d :: ds)), ws, sg, k, (d :: ds). rewrite Hs1.
  repeat split; auto; discriminate.
Qed.

Lemma scan_d_cases (s : cstring) :
  (exists v tl, scan_d s = Matched v tl /\ integer_then s v tl) \/
  ((scan_d s = Matching_failure \/ scan_d s = Input_failure) /\
   ~ exists v, integer_text s v).
Proof.
  destruct (scan_d s) as [v tl| |] eqn:E.
  - left. exists v, tl. split; [reflexivity|now apply scan_d_Matched].
  - right. split; [auto|]. intros [v H].
    apply integer_text_then in H as [tl H].
    apply scan_d_integer_then in H. congruence.
  - right. split; [auto|]. intros [v H].
    apply integer_text_then in H as [tl H].
    apply scan_d_integer_then in H. congruence.
Qed.

(** ** [read_proc_file_integer] and the pressure score *)

Lemma read_proc_file_integer_eq (proc : proc_files) (pid : Z)
    (name : cstring) (out : Z) (g : globals) :
  read_proc_file_integer proc pid name out g =
  match proc pid name with
  | None => Returns (-1, out) g
  | Some f =>
      match scan_d f with
      | Matched v _ =>
          if in_int v then Returns (0, v) g else Undefined signed_overflow
      | _ => Returns (-1, out) g
      end
  end.
Proof.
  unfold read_proc_file_integer, fscanf_d.
  destruct (proc pid name) as [f|]; [|reflexivity].
  destruct (scan_d f) as [v tl| |]; try reflexivity.
  unfold bind, int_result. now destruct (in_int v).
Qed.

Lemma get_oom_score_eq (proc : proc_files) (pid : Z) (g : globals) :
  get_oom_score proc pid g =
  match proc pid (str "oom_score") with
  | None => Returns (-1) g
  | Some f =>
      match scan_d f with
      | Matched v _ =>
          if in_int v then Returns v g else Undefined signed_overflow
      | _ => Returns (-1) g
      end
  end.
Proof.
  unfold get_oom_score, bind. rewrite read_proc_file_integer_eq.
  destruct (proc pid (str "oom_score")) as [f|]; [|reflexivity].
  destruct (scan_d f) as [v tl| |]; try reflexivity.
  now destruct (in_int v).
Qed.

(** X1. [get_oom_score] returns -1 when /proc/[pid]/oom_score cannot be
    opened or does not start with an integer, and the integer when the file
    starts with one that an [int] holds. It never ends the process and
    leaves the globals alone, and a result other than -1 is always the
    integer at the start of the file. A file that holds -1 gives the result
    of a failure. *)
Theorem X1_get_oom_score (proc : proc_files) (pid : Z) (g : globals) :
  (proc pid (str "oom_score") = None ->
   get_oom_score proc pid g = Returns (-1) g) /\
  (forall f, proc pid (str "oom_score") = Some f ->
     (~ exists v, integer_text f v) ->
     get_oom_score proc pid g = Returns (-1) g) /\
  (forall f v, proc pid (str "oom_score") = Some f ->
     integer_text f v -> in_int v = true ->
     get_oom_score proc pid g = Returns v g) /\
  (forall code g', get_oom_score proc pid g <> Exits code g') /\
  (forall v g', get_oom_score proc pid g = Returns v g' ->
     g' = g /\
     (v <> -1 ->
      exists f, proc pid (str "oom_score") = Some f /\ integer_text f v)).
Proof.
  rewrite get_oom_score_eq.
  split; [|split; [|split; [|split]]].
  - now intros ->.
  - intros f -> Hno.
    destruct (scan_d_cases f) as [(v & tl & _ & H)|[[-> | ->] _]];
      try reflexivity.
    exfalso; apply Hno. exists v. apply integer_text_then. now exists tl.
  - intros f v -> Htext Hint.
    apply integer_text_then in Htext as [tl Htext].
    now rewrite (scan_d_integer_then _ _ _ Htext), Hint.
  - intros code g'. destruct (proc pid (str "oom_score")) as [f|];
      [|discriminate].
    destruct (scan_d f) as [v tl| |]; try discriminate.
    destruct (in_int v); discriminate.
  - intros v g'. destruct (proc pid (str "oom_score")) as [f|].
    + destruct (scan_d f) as [w tl| |] eqn:E.
      * destruct (in_int w); [|discriminate].
        intros H; injection H as <- <-. split; [reflexivity|].
        intros _. exists f. split; [reflexivity|].
        apply integer_text_then. exists tl. now apply scan_d_Matched.
      * intros H; injection H as <- <-. split; congruence.
      * intros H; injection H as <- <-. split; congruence.
    + intros H; injection H as <- <-. split; congruence.
Qed.

Lemma X1_get_oom_score_witness :
  get_oom_score proc_4242 4242 startup = Returns 667 startup /\
  get_oom_score proc_4242 1 startup = Returns (-1) startup.
Proof.
  destruct (X1_get_oom_score proc_4242 4242 startup) as (_ & _ & H & _).
  destruct (X1_get_oom_score proc_4242 1 startup) as (Hnone & _).
  split.
  - apply (H (text ["667"%string])); [reflexivity| |reflexivity].
    exists [], [], 1, (str "667"), [newline].
    repeat split; try constructor; try discriminate; repeat constructor.
  - apply Hnone. reflexivity.
Defined.

(** X2. [get_oom_score_adj] tells a value of -1 from a failure: it returns
    0 and stores the integer, negative ones included, when the file starts
    with an integer that an [int] holds; it returns -1 and leaves [*out] as
    it was when the file cannot be opened or starts with no integer. When
    it returns 0, what [*out] holds is the integer at the start of the
    file. *)
Theorem X2_get_oom_score_adj (proc : proc_files) (pid : Z) (out : Z)
    (g : globals) :
  (forall f v, proc pid (str "oom_score_adj") = Some f ->
     integer_text f v -> in_int v = true ->
     get_oom_score_adj proc pid out g = Returns (0, v) g) /\
  (proc pid (str "oom_score_adj") = None \/
   (exists f, proc pid (str "oom_score_adj") = Some f /\
              ~ exists v, integer_text f v) ->
   get_oom_score_adj proc pid out g = Returns (-1, out) g) /\
  (forall res out' g',
     get_oom_score_adj proc pid out g = Returns (res, out') g' ->
     g' = g /\
     (res = -1 /\ out' = out \/
      res = 0 /\ exists f, proc pid (str "oom_score_adj") = Some f /\
                           integer_text f out')).
Proof.
  unfold get_oom_score_adj. rewrite read_proc_file_integer_eq.
  split; [|split].
  - intros f v -> Htext Hint.
    apply integer_text_then in Htext as [tl Htext].
    now rewrite (scan_d_integer_then _ _ _ Htext), Hint.
  - intros [->|(f & -> & Hno)]; [reflexivity|].
    destruct (scan_d_cases f) as [(v & tl & _ & H)|[[-> | ->] _]];
      try reflexivity.
    exfalso; apply Hno. exists v. apply integer_text_then. now exists tl.
  - intros res out' g'.
    destruct (proc pid (str "oom_score_adj")) as [f|].
    + destruct (scan_d f) as [w tl| |] eqn:E.
      * destruct (in_int w); [|discriminate].
        intros H; injection H as <- <- <-. split; [reflexivity|].
        right. split; [reflexivity|]. exists f. split; [reflexivity|].
        apply integer_text_then. exists tl. now apply scan_d_Matched.
      * intros H; injection H as <- <- <-. auto.
      * intros H; injection H as <- <- <-. auto.
    + intros H; injection H as <- <- <-. auto.
Qed.

Lemma X2_get_oom_score_adj_witness :
  get_oom_score_adj proc_4242 4242 7 startup = Returns (0, -1) startup /\
  get_oom_score_adj proc_4242 1 7 startup = Returns (-1, 7) startup.
Proof.
  destruct (X2_get_oom_score_adj proc_4242 4242 7 startup) as (H & _).
  destruct (X2_get_oom_score_adj proc_4242 1 7 startup) as (_ & Hnone & _).
  split.
  - apply (H (text ["-1"%string])); [reflexivity| |reflexivity].
    exists [], [minus_sign], (-1), (str "1"), [newline].
    repeat split; try constructor; try discriminate; repeat constructor.
  - apply Hnone. left. reflexivity.
Defined.

(** ** Resident memory *)

Lemma skip_space_idem (s : cstring) : skip_space (skip_space s) = skip_space s.
Proof.
  unfold skip_space at 2 3.
  destruct (span isspace s) as [ws rest] eqn:E.
  apply span_spec in E as (_ & _ & Hrest). simpl snd.
  destruct rest as [|c rest]; [reflexivity|].
  now apply skip_space_keep.
Qed.

Lemma scan_d_skip_space (s : cstring) : scan_d (skip_space s) = scan_d s.
Proof. unfold scan_d. now rewrite skip_space_idem. Qed.

Lemma quot_in_long (a : Z) :
  in_long a = true -> in_long (Z.quot a 1024) = true.
Proof.
  unfold in_long, LONG_MIN, LONG_MAX. intros H.
  apply andb_true_iff in H as [Hlo Hhi]. apply Z.leb_le in Hlo, Hhi.
  assert (- 2 ^ 63 <= Z.quot a 1024 <= 2 ^ 63 - 1).
  { destruct (Z_le_gt_dec 0 a) as [Ha|Ha].
    - pose proof (Z.mul_quot_le a 1024 Ha ltac:(lia)). lia.
    - pose proof (Z.mul_quot_ge a 1024 ltac:(lia) ltac:(lia)). lia. }
  apply andb_true_iff; split; apply Z.leb_le; lia.
Qed.

Lemma get_vm_rss_kib_eq (sysconf_pagesize : Z) (proc : proc_files)
    (pid page_size : Z) (g : globals) :
  get_vm_rss_kib sysconf_pagesize proc pid page_size g =
  match proc pid (str "statm") with
  | None => Returns (-1, page_size) g
  | Some f =>
      match scan_skip_d f with
      | Matched _ s1 =>
          match scan_d s1 with
          | Matched v _ =>
              let p := if page_size =? 0 then int_of_long sysconf_pagesize
                       else page_size in
              if in_long v && in_long (v * p)
              then Returns (Z.quot (v * p) 1024, p) g
              else Undefined signed_overflow
          | _ => Returns (-1, page_size) g
          end
      | _ => Returns (-1, page_size) g
      end
  end.
Proof.
  unfold get_vm_rss_kib, fscanf_u_ld, scan_skip_u.
  destruct (proc pid (str "statm")) as [f|]; [|reflexivity].
  destruct (scan_skip_d f) as [u s1| |]; try reflexivity.
  rewrite scan_d_skip_space.
  destruct (scan_d s1) as [v tl| |]; try reflexivity.
  cbv zeta. simpl.
  unfold bind, long_mul, long_div, long_result, ret, undefined.
  destruct (in_long v); [|reflexivity]. simpl.
  destruct (in_long (v * _)) eqn:Hmul; [|reflexivity].
  now rewrite (quot_in_long _ Hmul).
Qed.

Lemma get_vm_rss_kib_pages (sysconf_pagesize : Z) (proc : proc_files)
    (pid page_size : Z) (g : globals) f size tl rss :
  let p := if page_size =? 0 then int_of_long sysconf_pagesize
           else page_size in
  proc pid (str "statm") = Some f ->
  integer_then f size tl -> integer_text tl rss ->
  in_long rss = true -> in_long (rss * p) = true ->
  get_vm_rss_kib sysconf_pagesize proc pid page_size g
  = Returns (Z.quot (rss * p) 1024, p) g.
Proof.
  intros p Hf Hsize Hrss Hlong Hmul.
  rewrite get_vm_rss_kib_eq, Hf. fold p.
  apply integer_text_then in Hrss as [tl' Hrss].
  rewrite (scan_skip_d_integer_then _ _ _ Hsize).
  rewrite (scan_d_integer_then _ _ _ Hrss).
  cbv zeta. now rewrite Hlong, Hmul.
Qed.

(** X3. For a statm file that starts with two integers, the second being
    the count [rss] of resident pages, [get_vm_rss_kib] returns
    rss * page_size / 1024, where the page size is the static variable, or
    what [sysconf] answers when the variable is still 0; the product is
    taken first and the quotient truncated. For a page size of 1024 * k
    the result is rss * k without rounding, and for a non-negative count
    and page size it is not negative. The function returns -1 when the
    file cannot be opened or does not start with two integers, and then
    leaves the static variable as it was. *)
Theorem X3_get_vm_rss_kib (sysconf_pagesize : Z) (proc : proc_files)
    (pid page_size : Z) (g : globals) :
  let p := if page_size =? 0 then int_of_long sysconf_pagesize
           else page_size in
  (forall f size tl rss,
     proc pid (str "statm") = Some f ->
     integer_then f size tl -> integer_text tl rss ->
     in_long rss = true -> in_long (rss * p) = true ->
     get_vm_rss_kib sysconf_pagesize proc pid page_size g
     = Returns (Z.quot (rss * p) 1024, p) g /\
     (forall k, p = 1024 * k -> Z.quot (rss * p) 1024 = rss * k) /\
     (0 <= rss -> 0 <= p ->
      Z.quot (rss * p) 1024 = rss * p / 1024 /\
      0 <= Z.quot (rss * p) 1024)) /\
  (proc pid (str "statm") = None ->
   get_vm_rss_kib sysconf_pagesize proc pid page_size g
   = Returns (-1, page_size) g) /\
  (forall f, proc pid (str "statm") = Some f ->
     (~ exists size tl rss, integer_then f size tl /\ integer_text tl rss) ->
     get_vm_rss_kib sysconf_pagesize proc pid page_size g
     = Returns (-1, page_size) g).
Proof.
  intros p. split; [|split].
  - intros f size tl rss Hf Hsize Hrss Hlong Hmul.
    split; [now apply (get_vm_rss_kib_pages _ _ _ _ _ f size tl)|]. split.
    + intros k ->.
      replace (rss * (1024 * k)) with (rss * k * 1024) by lia.
      apply Z.quot_mul. lia.
    + intros Hrss0 Hp0.
      assert (0 <= rss * p) by lia.
      rewrite Z.quot_div_nonneg by lia.
      split; [reflexivity|]. apply Z.div_pos; lia.
  - rewrite get_vm_rss_kib_eq. now intros ->.
  - rewrite get_vm_rss_kib_eq. intros f -> Hno.
    destruct (scan_skip_d f) as [u s1| |] eqn:Eu; try reflexivity.
    destruct (scan_d s1) as [v tl'| |] eqn:Ev; try reflexivity.
    exfalso. apply Hno.
    assert (Hsize : exists size, integer_then f size s1)
      by (destruct u; now apply scan_skip_d_Matched).
    destruct Hsize as [size Hsize].
    exists size, s1, v. split; [assumption|].
    apply integer_text_then. exists tl'. now apply scan_d_Matched.
Qed.

Lemma X3_get_vm_rss_kib_witness :
  get_vm_rss_kib 4096 proc_4242 4242 0 startup
  = Returns (1234 * 4, 4096) startup.
Proof.
  assert (Hsize : integer_then (text ["56789 1234 321 17 0 4567 0"%string])
                    56789 (str " 1234 321 17 0 4567 0" ++ [newline])).
  { exists [], [], 1, (str "56789").
    repeat split; try constructor; try discriminate; repeat constructor. }
  assert (Hrss : integer_text (str " 1234 321 17 0 4567 0" ++ [newline])
                   1234).
  { exists [space], [], 1, (str "1234"),
      (str " 321 17 0 4567 0" ++ [newline]).
    repeat split; try constructor; try discriminate; repeat constructor. }
  destruct (X3_get_vm_rss_kib 4096 proc_4242 4242 0 startup) as (H & _).
  destruct (H _ _ _ _ eq_refl Hsize Hrss eq_refl eq_refl)
    as (E & Hexact & _).
  rewrite E. now rewrite (Hexact 4).
Defined.

(** X4. The page size is asked of [sysconf] once: a call that starts with
    a non-zero static variable keeps it and does not depend on what
    [sysconf] would answer, and a call that starts with 0 leaves 0 or the
    answer of [sysconf]. So after a call that set the variable, a later
    call for a statm file with [rss] resident pages computes with the page
    size of the first call, whatever [sysconf] answers by then. *)
Theorem X4_page_size_cached (s1 s2 : Z) (proc : proc_files)
    (pid page_size : Z) (g : globals) :
  (page_size <> 0 ->
   get_vm_rss_kib s1 proc pid page_size g
   = get_vm_rss_kib s2 proc pid page_size g) /\
  (forall r p g',
     get_vm_rss_kib s1 proc pid page_size g = Returns (r, p) g' ->
     g' = g /\
     (p = page_size \/ page_size = 0 /\ p = int_of_long s1)) /\
  (forall r p g' proc2 pid2 f size tl rss,
     get_vm_rss_kib s1 proc pid 0 g = Returns (r, p) g' -> p <> 0 ->
     proc2 pid2 (str "statm") = Some f ->
     integer_then f size tl -> integer_text tl rss ->
     in_long rss = true -> in_long (rss * int_of_long s1) = true ->
     get_vm_rss_kib s2 proc2 pid2 p g'
     = Returns (Z.quot (rss * int_of_long s1) 1024, int_of_long s1) g').
Proof.
  split; [|split].
  - intros Hp. rewrite !get_vm_rss_kib_eq.
    apply Z.eqb_neq in Hp. now rewrite Hp.
  - intros r p g'. rewrite get_vm_rss_kib_eq.
    destruct (proc pid (str "statm")) as [f|].
    + destruct (scan_skip_d f) as [u s1'| |].
      * destruct (scan_d s1') as [v tl| |].
        -- cbv zeta. destruct (in_long v && in_long _); [|discriminate].
           intros H; injection H as _ <- <-. split; [reflexivity|].
           destruct (Z.eqb_spec page_size 0); auto.
        -- intros H; injection H as _ <- <-. auto.
        -- intros H; injection H as _ <- <-. auto.
      * intros H; injection H as _ <- <-. auto.
      * intros H; injection H as _ <- <-. auto.
    + intros H; injection H as _ <- <-. auto.
  - intros r p g' proc2 pid2 f size tl rss Hfirst Hp Hf Hsize Hrss Hl Hm.
    assert (Hp' : p = int_of_long s1).
    { revert Hfirst. rewrite get_vm_rss_kib_eq.
      destruct (proc pid (str "statm")) as [f0|].
      - destruct (scan_skip_d f0) as [u s1'| |].
        + destruct (scan_d s1') as [v tl0| |].
          * cbv zeta. destruct (in_long v && in_long _); [|discriminate].
            intros H; injection H as _ <- _. reflexivity.
          * intros H; injection H as _ <- _. congruence.
          * intros H; injection H as _ <- _. congruence.
        + intros H; injection H as _ <- _. congruence.
        + intros H; injection H as _ <- _. congruence.
      - intros H; injection H as _ <- _. congruence. }
    pose proof (get_vm_rss_kib_pages s2 proc2 pid2 p g' f size tl rss)
      as E.
    apply Z.eqb_neq in Hp. cbv zeta in E. rewrite Hp in E.
    rewrite <- Hp'. apply E; auto. now rewrite Hp'.
Qed.

Lemma X4_page_size_cached_witness :
  get_vm_rss_kib 4096 proc_4242 4242 0 startup
  = Returns (4936, 4096) startup /\
  get_vm_rss_kib 65536 proc_4242 4242 4096 startup
  = Returns (4936, 4096) startup.
Proof.
  assert (Hsize : integer_then (text ["56789 1234 321 17 0 4567 0"%string])
                    56789 (str " 1234 321 17 0 4567 0" ++ [newline])).
  { exists [], [], 1, (str "56789").
    repeat split; try constructor; try discriminate; repeat constructor. }
  assert (Hrss : integer_text (str " 1234 321 17 0 4567 0" ++ [newline])
                   1234).
  { exists [space], [], 1, (str "1234"),
      (str " 321 17 0 4567 0" ++ [newline]).
    repeat split; try constructor; try discriminate; repeat constructor. }
  assert (E : get_vm_rss_kib 4096 proc_4242 4242 0 startup
              = Returns (4936, 4096) startup) by reflexivity.
  split; [exact E|].
  destruct (X4_page_size_cached 4096 65536 proc_4242 4242 0 startup)
    as (_ & _ & H).
  apply (H _ _ _ proc_4242 4242 _ _ _ 1234 E ltac:(discriminate) eq_refl
           Hsize Hrss eq_refl eq_refl).
Defined.

(** ** The name of a process *)

Lemma fread_bytes_firstn (count : Z) (f : list ascii) :
  0 <= count ->
  fread_bytes count f
  = firstn (Z.to_nat (Z.min count (Z.of_nat (List.length f)))) f.
Proof.
  intros Hc. unfold fread_bytes.
  destruct (Z.leb_spec (Z.of_nat (List.length f)) count).
  - rewrite Z.min_r by assumption. rewrite Nat2Z.id. now rewrite firstn_all.
  - now rewrite Z.min_l by lia.
Qed.

Lemma store_at_last (i : nat) (c : ascii) (bytes rest : list ascii) :
  List.length bytes = S i ->
  store_at i c (bytes ++ rest) = firstn i bytes ++ c :: rest.
Proof.
  intros Hlen. unfold store_at.
  assert (H1 : firstn i (bytes ++ rest) = firstn i bytes).
  { rewrite firstn_app.
    replace (i - List.length bytes)%nat with 0%nat by lia.
    simpl. apply app_nil_r. }
  assert (H2 : skipn (S i) (bytes ++ rest) = rest).
  { rewrite skipn_app.
    replace (S i - List.length bytes)%nat with 0%nat by lia.
    rewrite skipn_all2 by lia. reflexivity. }
  now rewrite H1, H2.
Qed.

Lemma c_str_app_NUL (name rest : list ascii) :
  ~ In NUL name -> c_str (name ++ NUL :: rest) = name.
Proof.
  induction name as [|c name IH]; simpl; intros Hnot.
  - reflexivity.
  - unfold is_nul at 1. destruct (Ascii.eqb_spec c NUL) as [->|_].
    + exfalso. apply Hnot. now left.
    + rewrite IH; auto.
Qed.

Lemma c_str_length_app_NUL (pre rest : list ascii) :
  (List.length (c_str (pre ++ NUL :: rest)) <= List.length pre)%nat.
Proof.
  induction pre as [|c pre IH]; simpl.
  - lia.
  - destruct (is_nul c); simpl; lia.
Qed.

Section CommFacts.

Variable fix_truncated_utf8 : list ascii -> list ascii.

Lemma get_comm_eq (proc : proc_files) (pid : Z) (out f : list ascii)
    (outlen : Z) :
  proc pid (str "comm") = Some f ->
  1 <= outlen <= INT_MAX -> outlen - 1 <= Z.of_nat (List.length out) ->
  let n := Z.min (outlen - 1) (Z.of_nat (List.length f)) in
  get_comm fix_truncated_utf8 proc pid out outlen =
  if n <? 2
  then comm_returns (-1) (firstn (Z.to_nat n) f ++ skipn (Z.to_nat n) out)
  else comm_returns 0
         (fix_truncated_utf8
            (firstn (Z.to_nat (n - 1)) f ++ NUL :: skipn (Z.to_nat n) out)).
Proof.
  intros Hf [Hlo Hhi] Hcap n. unfold get_comm. rewrite Hf.
  assert (Hsize : size_t_of_int (outlen - 1) = outlen - 1).
  { unfold size_t_of_int. apply Z.mod_small. unfold INT_MAX in Hhi. lia. }
  cbv zeta. rewrite Hsize, fread_bytes_firstn by lia. fold n.
  assert (Hn : 0 <= n <= Z.of_nat (List.length f)) by lia.
  assert (Hlen : List.length (firstn (Z.to_nat n) f) = Z.to_nat n).
  { apply firstn_length_le. lia. }
  rewrite Hlen.
  destruct (Z.ltb_spec (Z.of_nat (List.length out)) (outlen - 1)); [lia|].
  rewrite Z2Nat.id by lia.
  rewrite int_of_long_small by (unfold INT_MIN; lia).
  unfold store_bytes. rewrite Hlen.
  destruct (Z.ltb_spec n 2); [reflexivity|].
  f_equal. f_equal.
  rewrite store_at_last.
  - rewrite firstn_firstn.
    now replace (Nat.min (Z.to_nat (n - 1)) (Z.to_nat n))
      with (Z.to_nat (n - 1)) by lia.
  - rewrite Hlen. lia.
Qed.

(** X5. When /proc/[pid]/comm is opened and [outlen] is at least 1 and at
    most one more than the array holds, [get_comm] reads
    n = min(outlen - 1, size of the file) bytes. It returns -1 for n < 2;
    otherwise it returns 0 and hands to [fix_truncated_utf8] the array
    holding the first n - 1 bytes of the file followed by a NUL: the last
    byte read is dropped, newline or not. So a file holding a name and a
    newline that fit gives the name, and a longer file gives its first
    outlen - 2 bytes. When the file cannot be opened the result is -1 and
    the array is untouched. *)
Theorem X5_get_comm (proc : proc_files) (pid : Z) (out : list ascii)
    (outlen : Z) :
  (proc pid (str "comm") = None ->
   get_comm fix_truncated_utf8 proc pid out outlen = comm_returns (-1) out)
  /\
  (forall f, proc pid (str "comm") = Some f ->
     1 <= outlen <= INT_MAX -> outlen - 1 <= Z.of_nat (List.length out) ->
     let n := Z.min (outlen - 1) (Z.of_nat (List.length f)) in
     get_comm fix_truncated_utf8 proc pid out outlen =
     (if n <? 2
      then comm_returns (-1)
             (firstn (Z.to_nat n) f ++ skipn (Z.to_nat n) out)
      else comm_returns 0
             (fix_truncated_utf8
                (firstn (Z.to_nat (n - 1)) f
                 ++ NUL :: skipn (Z.to_nat n) out)))) /\
  (forall name last,
     proc pid (str "comm") = Some (name ++ [last]) ->
     1 <= outlen <= INT_MAX -> outlen - 1 <= Z.of_nat (List.length out) ->
     name <> [] -> ~ In NUL name ->
     Z.of_nat (List.length name) + 1 <= outlen - 1 ->
     exists buf,
       get_comm fix_truncated_utf8 proc pid out outlen
       = comm_returns 0 (fix_truncated_utf8 buf) /\
       c_str buf = name) /\
  (forall f,
     proc pid (str "comm") = Some f ->
     3 <= outlen <= INT_MAX -> outlen - 1 <= Z.of_nat (List.length out) ->
     outlen - 1 <= Z.of_nat (List.length f) ->
     ~ In NUL (firstn (Z.to_nat (outlen - 2)) f) ->
     exists buf,
       get_comm fix_truncated_utf8 proc pid out outlen
       = comm_returns 0 (fix_truncated_utf8 buf) /\
       c_str buf = firstn (Z.to_nat (outlen - 2)) f /\
       Z.of_nat (List.length (c_str buf)) = outlen - 2).
Proof.
  split; [|split; [|split]].
  - unfold get_comm. now intros ->.
  - intros f Hf Hlen Hcap. now apply get_comm_eq.
  - intros name last Hf Hlen Hcap Hne Hnul Hfit.
    rewrite (get_comm_eq _ _ _ _ _ Hf Hlen Hcap).
    rewrite length_app. simpl List.length.
    assert (Hname : (1 <= List.length name)%nat)
      by (destruct name; [congruence|simpl; lia]).
    rewrite Z.min_r by lia.
    destruct (Z.ltb_spec (Z.of_nat (List.length name + 1)) 2); [lia|].
    eexists. split; [reflexivity|].
    replace (Z.to_nat (Z.of_nat (List.length name + 1) - 1))
      with (List.length name) by lia.
    rewrite firstn_app, firstn_all, Nat.sub_diag. simpl firstn.
    rewrite app_nil_r. now apply c_str_app_NUL.
  - intros f Hf Hlen Hcap Hlong Hnul.
    assert (Hlen' : 1 <= outlen <= INT_MAX) by lia.
    rewrite (get_comm_eq _ _ _ _ _ Hf Hlen' Hcap).
    rewrite Z.min_l by lia.
    destruct (Z.ltb_spec (outlen - 1) 2); [lia|].
    eexists. split; [reflexivity|].
    replace (outlen - 1 - 1) with (outlen - 2) by lia.
    rewrite c_str_app_NUL by assumption.
    split; [reflexivity|].
    rewrite firstn_length_le by lia. lia.
Qed.

(** X6. For 1 <= outlen <= size of the array + 1, [get_comm] stays within
    the array [out]: whatever the file holds, the array it leaves, or
    hands to [fix_truncated_utf8], has the size of [out] and differs from
    [out] only in its first n = min(outlen - 1, size of the file)
    elements; and when the result is 0, the string that starts the array
    handed on has at most outlen - 2 characters. *)
Theorem X6_get_comm_bounds (proc : proc_files) (pid : Z)
    (out f : list ascii) (outlen : Z) :
  proc pid (str "comm") = Some f ->
  1 <= outlen <= INT_MAX -> outlen - 1 <= Z.of_nat (List.length out) ->
  let n := Z.to_nat (Z.min (outlen - 1) (Z.of_nat (List.length f))) in
  exists buf,
    (get_comm fix_truncated_utf8 proc pid out outlen
     = comm_returns (-1) buf \/
     get_comm fix_truncated_utf8 proc pid out outlen
     = comm_returns 0 (fix_truncated_utf8 buf) /\
     Z.of_nat (List.length (c_str buf)) <= outlen - 2) /\
    List.length buf = List.length out /\
    skipn n buf = skipn n out.
Proof.
  intros Hf Hlen Hcap n.
  rewrite (get_comm_eq _ _ _ _ _ Hf Hlen Hcap).
  set (k := Z.min (outlen - 1) (Z.of_nat (List.length f))).
  assert (Hk : 0 <= k <= Z.of_nat (List.length f)) by lia.
  assert (Hko : k <= Z.of_nat (List.length out)) by lia.
  fold k in n.
  destruct (Z.ltb_spec k 2) as [Hshort|Hlong].
  - exists (firstn n f ++ skipn n out). split; [now left|]. split.
    + rewrite length_app, firstn_length_le, length_skipn by lia. lia.
    + rewrite skipn_app, firstn_length_le by lia.
      rewrite skipn_all2 by (rewrite firstn_length_le; lia).
      now rewrite Nat.sub_diag.
  - exists (firstn (Z.to_nat (k - 1)) f ++ NUL :: skipn n out).
    assert (Hpre : List.length (firstn (Z.to_nat (k - 1)) f)
                   = Z.to_nat (k - 1)) by (apply firstn_length_le; lia).
    split; [right; split; [reflexivity|]|split].
    + pose proof (c_str_length_app_NUL (firstn (Z.to_nat (k - 1)) f)
                    (skipn n out)) as Hc.
      rewrite Hpre in Hc. lia.
    + rewrite length_app, Hpre. cbn [List.length].
      rewrite length_skipn. lia.
    + rewrite skipn_app, Hpre.
      rewrite skipn_all2 by lia.
      replace (n - Z.to_nat (k - 1))%nat with 1%nat by lia.
      reflexivity.
Qed.

End CommFacts.

Lemma X5_get_comm_witness :
  get_comm (fun buf => buf) proc_4242 4242 (repeat space 16) 16
  = comm_returns 0 (str "cat" ++ NUL :: repeat space 12) /\
  get_comm (fun buf => buf) proc_4242 4242 (repeat space 16) 4
  = comm_returns 0 (str "ca" ++ NUL :: repeat space 13).
Proof.
  destruct (X5_get_comm (fun buf => buf) proc_4242 4242 (repeat space 16) 16)
    as (_ & H16 & _).
  destruct (X5_get_comm (fun buf => buf) proc_4242 4242 (repeat space 16) 4)
    as (_ & H4 & _).
  split.
  - rewrite (H16 (text ["cat"%string]) eq_refl); [reflexivity| |].
    + unfold INT_MAX. lia.
    + simpl. lia.
  - rewrite (H4 (text ["cat"%string]) eq_refl); [reflexivity| |].
    + unfold INT_MAX. lia.
    + simpl. lia.
Defined.

Lemma X6_get_comm_bounds_witness :
  exists buf,
    get_comm (fun b => b) proc_4242 4242 (repeat space 16) 3
    = comm_returns 0 buf /\
    List.length buf = 16%nat /\ c_str buf = str "c".
Proof.
  destruct (X6_get_comm_bounds (fun b => b) proc_4242 4242
              (repeat space 16) (text ["cat"%string]) 3 eq_refl)
    as (buf & [E|[E Hc]] & Hsize & _).
  - unfold INT_MAX. lia.
  - simpl. lia.
  - vm_compute in E. discriminate.
  - exists buf. split; [exact E|]. split; [exact Hsize|].
    vm_compute in E. injection E as <-. reflexivity.
Defined.

(** ** The owner of a process *)

(** X7. [get_uid] returns -1 when [stat] fails. When it succeeds with a
    user id below 2^32, the result is the id if the id is at most INT_MAX,
    and the negative number id - 2^32 above that; so the result is
    non-negative exactly for ids up to INT_MAX, and the id 2^32 - 1 gives
    the value of a failure. *)
Theorem X7_get_uid (owner : Z -> option Z) (pid : Z) :
  (owner pid = None -> get_uid owner pid = -1) /\
  (forall st_uid, owner pid = Some st_uid -> 0 <= st_uid < 2 ^ 32 ->
     (st_uid <= INT_MAX -> get_uid owner pid = st_uid) /\
     (INT_MAX < st_uid -> get_uid owner pid = st_uid - 2 ^ 32) /\
     (0 <= get_uid owner pid <-> st_uid <= INT_MAX) /\
     (get_uid owner pid = -1 <-> st_uid = 2 ^ 32 - 1)).
Proof.
  unfold get_uid. split; [now intros ->|].
  intros st_uid -> Hrange.
  assert (Hsmall : st_uid <= INT_MAX -> int_of_long st_uid = st_uid).
  { intros H. apply int_of_long_small. unfold INT_MIN. lia. }
  assert (Hbig : INT_MAX < st_uid -> int_of_long st_uid = st_uid - 2 ^ 32).
  { unfold INT_MAX, int_of_long. intros H.
    replace (st_uid + 2 ^ 31) with ((st_uid - 2 ^ 31) + 1 * 2 ^ 32) by lia.
    rewrite Z.mod_add by lia. rewrite Z.mod_small; lia. }
  split; [exact Hsmall|]. split; [exact Hbig|].
  destruct (Z_le_gt_dec st_uid INT_MAX) as [H|H].
  - rewrite Hsmall by assumption. unfold INT_MAX in *. lia.
  - rewrite Hbig by lia. unfold INT_MAX in *. lia.
Qed.

Lemma X7_get_uid_witness :
  get_uid (fun _ => Some 1000) 4242 = 1000 /\
  get_uid (fun _ => Some 4294967294) 4242 = -2.
Proof.
  destruct (X7_get_uid (fun _ => Some 1000) 4242) as (_ & H1).
  destruct (X7_get_uid (fun _ => Some 4294967294) 4242) as (_ & H2).
  split.
  - apply (H1 1000 eq_refl); [lia | unfold INT_MAX; lia].
  - destruct (H2 4294967294 eq_refl ltac:(lia)) as (_ & H & _).
    rewrite H; [reflexivity | unfold INT_MAX; lia].
Defined.

(** ** More on [parse_meminfo] *)

Lemma quot_pos_in_long (a b : Z) :
  0 < b -> in_long a = true -> in_long (Z.quot a b) = true.
Proof.
  unfold in_long, LONG_MIN, LONG_MAX. intros Hb H.
  apply andb_true_iff in H as [Hlo Hhi]. apply Z.leb_le in Hlo, Hhi.
  assert (- 2 ^ 63 <= Z.quot a b <= 2 ^ 63 - 1).
  { destruct (Z_le_gt_dec 0 a) as [Ha|Ha].
    - pose proof (Z.mul_quot_le a b Ha ltac:(lia)).
      pose proof (Z.quot_pos a b Ha Hb). nia.
    - pose proof (Z.mul_quot_ge a b ltac:(lia) ltac:(lia)).
      assert (Z.quot a b <= 0) by (apply Z.quot_le_upper_bound; lia).
      nia. }
  apply andb_true_iff; split; apply Z.leb_le; lia.
Qed.

Lemma saturate_fst_in_long (v : Z) : in_long (fst (saturate v)) = true.
Proof.
  unfold saturate, in_long.
  destruct (Z.ltb_spec v LONG_MIN); [reflexivity|].
  destruct (Z.ltb_spec LONG_MAX v); [reflexivity|]. simpl.
  apply andb_true_iff; split; apply Z.leb_le; lia.
Qed.

Lemma strtol_in_long (e : Z) (s : cstring) :
  in_long (fst (strtol e s)) = true.
Proof.
  unfold strtol. destruct (read_sign (skip_space s)) as [neg s1].
  destruct (fst (span isdigit s1)); [reflexivity|].
  apply saturate_fst_in_long.
Qed.

Lemma entry_in_long (e : Z) (name buf : cstring) :
  in_long (entry e name buf) = true.
Proof.
  unfold entry, get_entry.
  destruct (strstr buf name) as [hit|]; [|reflexivity].
  pose proof (strtol_in_long e (skipn (strlen name) hit)) as H.
  destruct (strtol e (skipn (strlen name) hit)) as [val errno].
  destruct (errno =? 0); simpl; [exact H|reflexivity].
Qed.

(** The snapshot does not depend on the globals. *)
Lemma snapshot_globals (mt swt swf av : Z) (g g2 : globals) m g' :
  snapshot mt swt swf av g = Returns m g' ->
  snapshot mt swt swf av g2 = Returns m g2.
Proof.
  unfold snapshot, bind, long_mul, long_div, long_result, ret, undefined.
  repeat match goal with
         | |- context [if ?c then _ else _] => destruct c
         end; try discriminate; intros H; injection H as <- _; reflexivity.
Qed.

Lemma snapshot_total (mt swt swf av : Z) (g : globals) :
  0 < mt -> in_long mt = true -> in_long swt = true ->
  in_long swf = true -> in_long av = true ->
  in_long (av * 100) = true ->
  (0 < swt -> in_long (swf * 100) = true) ->
  exists m, snapshot mt swt swf av g = Returns m g.
Proof.
  intros Hmt Lmt Lswt Lswf Lav Lmul Lswap.
  unfold snapshot, bind, long_mul, long_div, long_result, ret, undefined.
  rewrite Lmul.
  destruct (Z.eqb_spec mt 0); [lia|].
  rewrite (quot_pos_in_long _ _ Hmt Lmul).
  destruct (Z.ltb_spec 0 swt) as [Hswt|Hswt].
  - rewrite (Lswap Hswt).
    destruct (Z.eqb_spec swt 0); [lia|].
    rewrite (quot_pos_in_long _ _ Hswt (Lswap Hswt)). simpl.
    rewrite (quot_in_long _ Lmt), (quot_in_long _ Lav),
      (quot_in_long _ Lswt), (quot_in_long _ Lswf).
    eexists; reflexivity.
  - simpl.
    rewrite (quot_in_long _ Lmt), (quot_in_long _ Lav),
      (quot_in_long _ Lswt), (quot_in_long _ Lswf).
    eexists; reflexivity.
Qed.

Lemma estimate_in_long_last (e : Z) (buf : cstring) :
  estimate_in_long e buf = true -> in_long (estimate e buf) = true.
Proof.
  unfold estimate_in_long. intros H.
  apply andb_true_iff in H as [_ H]. exact H.
Qed.

Lemma available_kib_in_long (e : Z) (buf : cstring) :
  entry e (str "MemAvailable:") buf <> -1 \/
  estimate_in_long e buf = true ->
  in_long (available_kib e buf) = true.
Proof.
  unfold available_kib. intros [H|H].
  - apply Z.eqb_neq in H. rewrite H. apply entry_in_long.
  - destruct (_ =? -1); [now apply estimate_in_long_last|].
    apply entry_in_long.
Qed.

(** X8. [parse_meminfo] returns a snapshot whenever the source is opened
    and not empty, MemTotal, SwapTotal and SwapFree are found, the
    available memory is found or can be estimated within [long], MemTotal
    is positive, and the products by 100 stay within [long]: on such input
    it neither exits nor leaves defined behaviour. *)
Theorem X8_parse_meminfo_returns (e : Z) (f : meminfo_file) (g : globals) :
  let buf := c_str (fread f) in
  fd g = true \/ can_open f = true ->
  contents f <> [] ->
  mandatory_missing e buf = false ->
  entry e (str "MemAvailable:") buf <> -1 \/
  (estimate_missing e buf = false /\ estimate_in_long e buf = true) ->
  0 < entry e (str "MemTotal:") buf ->
  in_long (available_kib e buf * 100) = true ->
  (0 < entry e (str "SwapTotal:") buf ->
   in_long (entry e (str "SwapFree:") buf * 100) = true) ->
  exists m g', parse_meminfo e f g = Returns m g'.
Proof.
  intros buf Hopen Hne Hmand Hav Hmt Hmul Hswap.
  destruct (parse_meminfo_eq e f g) as (g0 & _ & E).
  fold buf in E. cbv zeta in E. rewrite E. clear E.
  assert (Hun : unreadable f g = false).
  { destruct (unreadable f g) eqn:Hun; [|reflexivity].
    apply unreadable_iff in Hun as [[H1 H2]|H]; [|contradiction].
    destruct Hopen; congruence. }
  rewrite Hun, Hmand.
  assert (Lav : in_long (available_kib e buf) = true).
  { apply available_kib_in_long. tauto. }
  unfold available_kib in Hmul, Lav.
  destruct (entry e (str "MemAvailable:") buf =? -1) eqn:HMA.
  - destruct Hav as [Hav|[Hmiss Hsum]];
      [apply Z.eqb_neq in Hav; congruence|].
    rewrite Hmiss, Hsum.
    destruct (snapshot_total _ _ _ _ (warned g0) Hmt
                (entry_in_long _ _ _) (entry_in_long _ _ _)
                (entry_in_long _ _ _) Lav Hmul Hswap) as [m Hm].
    eauto.
  - destruct (snapshot_total _ _ _ _ g0 Hmt
                (entry_in_long _ _ _) (entry_in_long _ _ _)
                (entry_in_long _ _ _) Lav Hmul Hswap) as [m Hm].
    eauto.
Qed.

Lemma X8_parse_meminfo_returns_witness :
  exists m g',
    parse_meminfo 0 (readable meminfo_recent) startup = Returns m g'.
Proof.
  apply X8_parse_meminfo_returns.
  - right. reflexivity.
  - discriminate.
  - reflexivity.
  - left. vm_compute. congruence.
  - reflexivity.
  - reflexivity.
  - intros _. reflexivity.
Defined.

(** X9. In a snapshot that [parse_meminfo] returns, each MiB field is the
    kiB value divided by 1024, truncated toward zero and stored in an
    [int]. For a non-negative total whose quotient an [int] holds,
    MemTotalMiB is the floor of MemTotalKiB / 1024:
    1024 * MemTotalMiB <= MemTotalKiB < 1024 * (MemTotalMiB + 1); the same
    holds for the swap total. *)
Theorem X9_mib_fields (e : Z) (f : meminfo_file) (g : globals) m g' :
  parse_meminfo e f g = Returns m g' ->
  let buf := c_str (fread f) in
  MemTotalMiB m = int_of_long (Z.quot (MemTotalKiB m) 1024) /\
  SwapTotalMiB m = int_of_long (Z.quot (SwapTotalKiB m) 1024) /\
  MemAvailableMiB m = int_of_long (Z.quot (available_kib e buf) 1024) /\
  SwapFreeMiB m
  = int_of_long (Z.quot (entry e (str "SwapFree:") buf) 1024) /\
  (0 <= MemTotalKiB m -> MemTotalKiB m / 1024 <= INT_MAX ->
   MemTotalMiB m = MemTotalKiB m / 1024 /\
   1024 * MemTotalMiB m <= MemTotalKiB m < 1024 * (MemTotalMiB m + 1)) /\
  (0 <= SwapTotalKiB m -> SwapTotalKiB m / 1024 <= INT_MAX ->
   SwapTotalMiB m = SwapTotalKiB m / 1024 /\
   1024 * SwapTotalMiB m <= SwapTotalKiB m < 1024 * (SwapTotalMiB m + 1)).
Proof.
  intros H buf.
  apply parse_meminfo_Returns in H as (_ & _ & H & _). fold buf in H.
  apply snapshot_Returns in H
    as (_ & _ & _ & Hmt & Hswt & _ & _ & Hmib & Hamib & Hsmib & Hfmib).
  rewrite Hmt, Hswt.
  assert (Hfloor : forall k, 0 <= k -> k / 1024 <= INT_MAX ->
            int_of_long (Z.quot k 1024) = k / 1024 /\
            1024 * (k / 1024) <= k < 1024 * (k / 1024 + 1)).
  { intros k Hk Hfit. rewrite Z.quot_div_nonneg by lia.
    assert (0 <= k / 1024) by (apply Z.div_pos; lia).
    rewrite int_of_long_small by (unfold INT_MIN; lia).
    split; [reflexivity|].
    pose proof (Z.div_mod k 1024 ltac:(lia)).
    pose proof (Z.mod_pos_bound k 1024 ltac:(lia)). lia. }
  split; [exact Hmib|]. split; [exact Hsmib|].
  split; [exact Hamib|]. split; [exact Hfmib|]. split.
  - intros Hk Hfit. rewrite Hmib.
    destruct (Hfloor _ Hk Hfit) as [-> Hbounds]. auto.
  - intros Hk Hfit. rewrite Hsmib.
    destruct (Hfloor _ Hk Hfit) as [-> Hbounds]. auto.
Qed.

Lemma X9_mib_fields_witness :
  exists m g',
    parse_meminfo 0 (readable meminfo_recent) startup = Returns m g' /\
    MemTotalKiB m = 16384 /\ MemTotalMiB m = 16 /\
    MemAvailableMiB m = 8 /\ SwapTotalMiB m = 2 /\ SwapFreeMiB m = 1.
Proof.
  destruct (parse_meminfo 0 (readable meminfo_recent) startup)
    as [m g'| |] eqn:E; try (vm_compute in E; discriminate).
  exists m, g'. split; [reflexivity|].
  destruct (X9_mib_fields 0 _ _ _ _ E) as (Hmt & Hswt & Hav & Hsf & _).
  assert (Hkib : MemTotalKiB m = 16384 /\ SwapTotalKiB m = 2048)
    by (vm_compute in E; injection E as <- _; split; reflexivity).
  destruct Hkib as [Hkib Hskib].
  rewrite Hkib in Hmt. rewrite Hskib in Hswt.
  repeat split; assumption.
Defined.

(** ** The handle and the buffer *)

Lemma get_entry_fd (e : Z) (name buf : cstring) (g : globals) v g' :
  get_entry e name buf g = Returns v g' -> fd g' = fd g.
Proof.
  unfold get_entry.
  destruct (strstr buf name) as [hit|].
  - destruct (strtol e (skipn (strlen name) hit)) as [val errno].
    destruct (errno =? 0); simpl; intros H; injection H as _ <-; reflexivity.
  - intros H; injection H as _ <-; reflexivity.
Qed.

Lemma get_entry_fatal_fd (e : Z) (name buf : cstring) (g : globals) v g' :
  get_entry_fatal e name buf g = Returns v g' -> fd g' = fd g.
Proof.
  unfold get_entry_fatal. intros H.
  apply bind_Returns in H as (val & g1 & H1 & H).
  apply get_entry_fd in H1.
  apply bind_Returns in H as (u & g2 & H2 & H).
  injection H as _ <-.
  destruct (val =? -1); [discriminate|].
  injection H2 as _ <-. exact H1.
Qed.

Lemma long_result_fd (z : Z) (g : globals) v g' :
  long_result z g = Returns v g' -> fd g' = fd g.
Proof. intros H. apply long_result_Returns in H as (_ & -> & _). auto. Qed.

Lemma available_guesstimate_fd (e : Z) (buf : cstring) (g : globals) v g' :
  available_guesstimate e buf g = Returns v g' -> fd g' = fd g.
Proof.
  unfold available_guesstimate. intros H.
  apply bind_Returns in H as (c & g1 & H1 & H).
  apply bind_Returns in H as (mf & g2 & H2 & H).
  apply bind_Returns in H as (b & g3 & H3 & H).
  apply bind_Returns in H as (s & g4 & H4 & H).
  apply bind_Returns in H as (t1 & g5 & H5 & H).
  apply bind_Returns in H as (t2 & g6 & H6 & H).
  apply get_entry_fatal_fd in H1, H2, H3, H4.
  apply long_result_fd in H5, H6, H. congruence.
Qed.

Lemma warned_fd (g : globals) : fd (warned g) = fd g.
Proof. unfold warned. now destruct (guesstimate_warned g =? 0). Qed.

Lemma warned_flag (g : globals) : guesstimate_warned (warned g) <> 0.
Proof.
  unfold warned. destruct (Z.eqb_spec (guesstimate_warned g) 0); simpl; lia.
Qed.

Lemma warned_again (g : globals) :
  guesstimate_warned g <> 0 -> warned g = g.
Proof. unfold warned. intros H. apply Z.eqb_neq in H. now rewrite H. Qed.

Lemma mem_available_fd (e : Z) (buf : cstring) (g : globals) v g' :
  mem_available e buf g = Returns v g' -> fd g' = fd g.
Proof.
  unfold mem_available. intros H.
  apply bind_Returns in H as (ma & g1 & H1 & H).
  apply get_entry_fd in H1.
  destruct (ma =? -1).
  - unfold fallback in H.
    apply bind_Returns in H as (v' & g2 & H2 & H).
    apply available_guesstimate_fd in H2.
    apply bind_Returns in H as (u & g3 & H3 & H).
    rewrite warn_guesstimate_eq in H3. injection H3 as _ <-.
    injection H as _ <-. rewrite warned_fd. congruence.
  - injection H as _ <-. exact H1.
Qed.

Lemma parse_meminfo_fd (e : Z) (f : meminfo_file) (g : globals) m g' :
  parse_meminfo e f g = Returns m g' -> fd g' = true.
Proof.
  unfold parse_meminfo. intros H.
  apply bind_Returns in H as (buf & g0 & H0 & H).
  assert (Hfd : fd g0 = true).
  { revert H0. unfold read_meminfo, fatal.
    destruct (fd g) eqn:Hg.
    - rewrite Hg. simpl. destruct (_ =? 0); [discriminate|].
      intros H0; injection H0 as _ <-. exact Hg.
    - simpl. destruct (can_open f); simpl; [|discriminate].
      destruct (_ =? 0); [discriminate|].
      intros H0; injection H0 as _ <-. reflexivity. }
  apply bind_Returns in H as (mt & g1 & H1 & H).
  apply bind_Returns in H as (swt & g2 & H2 & H).
  apply bind_Returns in H as (swf & g3 & H3 & H).
  apply bind_Returns in H as (av & g4 & H4 & H).
  apply get_entry_fatal_fd in H1, H2, H3. apply mem_available_fd in H4.
  apply snapshot_Returns in H as (-> & _). congruence.
Qed.

(** X10. The handle opened by a call that returned is used again: after
    [parse_meminfo] has returned a snapshot, a later call on a file with
    the same contents returns the same snapshot, also when the file could
    not be opened any more, and prints no further fallback warning. *)
Theorem X10_parse_meminfo_again (e : Z) (f : meminfo_file) (g : globals)
    m g' :
  parse_meminfo e f g = Returns m g' ->
  fd g' = true /\
  forall f2, contents f2 = contents f ->
    exists g'', parse_meminfo e f2 g' = Returns m g'' /\
                fd g'' = true /\
                guesstimate_warned g'' = guesstimate_warned g' /\
                warnings g'' = warnings g'.
Proof.
  intros H. pose proof (parse_meminfo_fd _ _ _ _ _ H) as Hfd.
  split; [exact Hfd|]. intros f2 Hsame.
  assert (Hread : fread f2 = fread f) by (unfold fread; now rewrite Hsame).
  destruct (parse_meminfo_eq e f g) as (g0 & Q0 & E0).
  destruct (parse_meminfo_eq e f2 g') as (g1 & [Q1f Q1w] & E1).
  rewrite H in E0. rewrite Hread in E1. cbv zeta in E0, E1.
  assert (Hun : unreadable f2 g' = false).
  { unfold unreadable in *. rewrite Hfd, Hread. simpl.
    destruct (fd g || can_open f); simpl in E0; [|discriminate].
    destruct (_ =? 0); [discriminate|reflexivity]. }
  rewrite Hun in E1.
  destruct (unreadable f g); [discriminate|].
  destruct (mandatory_missing e (c_str (fread f))); [discriminate|].
  destruct (entry e (str "MemAvailable:") (c_str (fread f)) =? -1).
  - destruct (estimate_missing e (c_str (fread f))); [discriminate|].
    destruct (estimate_in_long e (c_str (fread f))); [|discriminate].
    symmetry in E0.
    pose proof (snapshot_Returns _ _ _ _ _ _ _ E0) as (Hg' & _).
    assert (Hflag : guesstimate_warned g1 <> 0).
    { rewrite Q1f, Hg'. apply warned_flag. }
    rewrite (warned_again _ Hflag) in E1.
    rewrite (snapshot_globals _ _ _ _ _ g1 _ _ E0) in E1.
    exists g1. repeat split; auto.
    apply parse_meminfo_fd in E1. exact E1.
  - symmetry in E0.
    rewrite (snapshot_globals _ _ _ _ _ g1 _ _ E0) in E1.
    exists g1. repeat split; auto.
    apply parse_meminfo_fd in E1. exact E1.
Qed.

Lemma X10_parse_meminfo_again_witness :
  exists m g' g'',
    parse_meminfo 0 (readable meminfo_old) startup = Returns m g' /\
    parse_meminfo 0 {| can_open := false; contents := meminfo_old |} g'
    = Returns m g'' /\ warnings g'' = 1%nat.
Proof.
  destruct (parse_meminfo 0 (readable meminfo_old) startup)
    as [m g'| |] eqn:E; try (vm_compute in E; discriminate).
  destruct (X10_parse_meminfo_again 0 _ _ _ _ E) as (_ & H).
  destruct (H {| can_open := false; contents := meminfo_old |} eq_refl)
    as (g'' & E2 & _ & _ & Hw).
  exists m, g', g''. repeat split; auto.
  rewrite Hw. vm_compute in E. injection E as _ <-. reflexivity.
Defined.

Lemma buffer_room : exists n, (sizeof_buf - 1)%nat = S n.
Proof. exists (Z.to_nat 8190). vm_compute. reflexivity. Qed.

Lemma parse_meminfo_ext (e : Z) (f f2 : meminfo_file) (g : globals) :
  can_open f2 = can_open f ->
  (fread f2 = [] <-> fread f = []) ->
  c_str (fread f2) = c_str (fread f) ->
  parse_meminfo e f2 g = parse_meminfo e f g.
Proof.
  intros Hopen Hnil Hstr. unfold parse_meminfo, bind, read_meminfo.
  rewrite Hopen, Hstr.
  assert (Hlen : (Z.of_nat (List.length (fread f2)) =? 0)
                 = (Z.of_nat (List.length (fread f)) =? 0)).
  { destruct (fread f2) as [|a l]; destruct (fread f) as [|b l'];
      try reflexivity.
    - destruct Hnil as [Hnil _]. specialize (Hnil eq_refl). discriminate.
    - destruct Hnil as [_ Hnil]. specialize (Hnil eq_refl). discriminate. }
  now rewrite Hlen.
Qed.

Lemma c_str_no_NUL (s : list ascii) : ~ In NUL s -> c_str s = s.
Proof.
  intros H. rewrite <- (app_nil_r s) at 1.
  induction s as [|c s IH]; simpl; [reflexivity|].
  unfold is_nul at 1. destruct (Ascii.eqb_spec c NUL) as [->|_].
  - exfalso. apply H. now left.
  - rewrite IH; [reflexivity|]. intros Hin. apply H. now right.
Qed.

(** X11. [parse_meminfo] sees of the file only what the buffer takes and
    what [strstr] can reach: the outcome is the one for the first
    sizeof(buf) - 1 = 8191 bytes of the file, and for a file with a NUL
    among those bytes it is the outcome for the text before the NUL. A
    file that starts with a NUL is not taken as empty, with the exit
    status 102, but as a text without MemTotal: the call goes on to
    [fatal] at line 41, made without the argument of its [%s]. *)
Theorem X11_buffer_bounds (e : Z) (f : meminfo_file) (g : globals) :
  parse_meminfo e f g
  = parse_meminfo e {| can_open := can_open f;
                       contents := firstn (sizeof_buf - 1) (contents f) |} g
  /\
  (forall pre post,
     contents f = pre ++ NUL :: post ->
     pre <> [] -> ~ In NUL pre ->
     (List.length pre < sizeof_buf - 1)%nat ->
     parse_meminfo e f g
     = parse_meminfo e {| can_open := can_open f; contents := pre |} g) /\
  (forall post,
     contents f = NUL :: post -> fd g = true \/ can_open f = true ->
     parse_meminfo e f g = Undefined missing_argument).
Proof.
  destruct buffer_room as [room Hroom].
  split; [|split].
  - symmetry. apply parse_meminfo_ext.
    + reflexivity.
    + unfold fread. cbn [contents].
      rewrite firstn_firstn, Nat.min_id. tauto.
    + unfold fread. cbn [contents].
      now rewrite firstn_firstn, Nat.min_id.
  - intros pre post Hc Hne Hnul Hlen. symmetry.
    assert (Hcut : exists rest, fread f = pre ++ NUL :: rest).
    { unfold fread. rewrite Hc, firstn_app.
      rewrite firstn_all2 by lia.
      destruct (sizeof_buf - 1 - List.length pre)%nat as [|k] eqn:Hk;
        [lia|].
      cbn [firstn]. eexists; reflexivity. }
    destruct Hcut as [rest Hcut].
    assert (Hpre : fread {| can_open := can_open f; contents := pre |} = pre).
    { unfold fread. cbn [contents]. apply firstn_all2. lia. }
    apply parse_meminfo_ext.
    + reflexivity.
    + rewrite Hpre, Hcut. split; intros H.
      * congruence.
      * destruct pre; discriminate.
    + rewrite Hpre, Hcut. rewrite c_str_app_NUL by assumption.
      now apply c_str_no_NUL.
  - intros post Hc Hopen.
    destruct (parse_meminfo_eq e f g) as (g0 & _ & E).
    cbv zeta in E.
    assert (Hun : unreadable f g = false).
    { destruct (unreadable f g) eqn:Hun; [|reflexivity].
      apply unreadable_iff in Hun as [[H1 H2]|H].
      - destruct Hopen; congruence.
      - rewrite Hc in H. discriminate. }
    assert (Hbuf : c_str (fread f) = []).
    { unfold fread. rewrite Hc, Hroom. reflexivity. }
    rewrite Hun, Hbuf in E.
    assert (Hmiss : mandatory_missing e [] = true).
    { unfold mandatory_missing.
      rewrite (entry_absent e (str "MemTotal:") []); [reflexivity|].
      apply not_occurs_intro. reflexivity. }
    now rewrite Hmiss in E.
Qed.

Lemma X11_buffer_bounds_witness :
  parse_meminfo 0 (readable (meminfo_old ++ NUL :: meminfo_recent)) startup
  = parse_meminfo 0 (readable meminfo_old) startup.
Proof.
  destruct (X11_buffer_bounds 0
              (readable (meminfo_old ++ NUL :: meminfo_recent)) startup)
    as (_ & H & _).
  apply (H meminfo_old meminfo_recent eq_refl).
  - discriminate.
  - intros Hin. vm_compute in Hin.
    repeat (destruct Hin as [Hin|Hin]; [discriminate|]). exact Hin.
  - apply Nat.ltb_lt. vm_compute. reflexivity.
Defined.

(** ** Thresholds *)

Lemma floor_threshold (a b p : Z) : 0 < b -> (p <= a / b <-> p * b <= a).
Proof.
  intros Hb. split; intros H.
  - pose proof (Z.mul_div_le a b Hb). nia.
  - apply Z.div_le_lower_bound; lia.
Qed.

(** X12. What a comparison of a percentage with a threshold means. In a
    snapshot that [parse_meminfo] returns, for 0 <= available <=
    MemTotalKiB, MemAvailablePercent is at least p exactly when
    available * 100 >= p * MemTotalKiB; and for a positive swap total and
    0 <= SwapFree <= SwapTotalKiB, SwapFreePercent is at least p exactly
    when SwapFree * 100 >= p * SwapTotalKiB. *)
Theorem X12_percent_threshold (e : Z) (f : meminfo_file) (g : globals)
    m g' :
  parse_meminfo e f g = Returns m g' ->
  let buf := c_str (fread f) in
  let available := available_kib e buf in
  let swap_free := entry e (str "SwapFree:") buf in
  (0 <= available <= MemTotalKiB m ->
   forall p, p <= MemAvailablePercent m <->
             p * MemTotalKiB m <= available * 100) /\
  (0 < SwapTotalKiB m -> 0 <= swap_free <= SwapTotalKiB m ->
   forall p, p <= SwapFreePercent m <->
             p * SwapTotalKiB m <= swap_free * 100).
Proof.
  intros H buf available swap_free.
  apply parse_meminfo_Returns in H as (_ & _ & H & _).
  fold buf in H. fold available in H. fold swap_free in H.
  apply snapshot_Returns in H
    as (_ & Hnz & _ & Hmt & Hswt & Hpc & Hsw & _).
  rewrite Hmt, Hswt, Hpc, Hsw.
  assert (Hpercent : forall a b, 0 <= a <= b -> 0 < b ->
            int_of_long (Z.quot (a * 100) b) = a * 100 / b).
  { intros a b Ha Hb. apply percent_floor; try lia.
    assert (a * 100 / b <= 100) by (apply Z.div_le_upper_bound; lia).
    unfold INT_MAX. lia. }
  split.
  - intros Hav p. rewrite Hpercent by lia. apply floor_threshold. lia.
  - intros Hpos Hsf p. apply Z.ltb_lt in Hpos as Hpos'. rewrite Hpos'.
    rewrite Hpercent by lia. apply floor_threshold. lia.
Qed.

Lemma X12_percent_threshold_witness :
  exists m g',
    parse_meminfo 0 (readable meminfo_recent) startup = Returns m g' /\
    (10 <= MemAvailablePercent m <-> 10 * 16384 <= 8192 * 100).
Proof.
  destruct (parse_meminfo 0 (readable meminfo_recent) startup)
    as [m g'| |] eqn:E; try (vm_compute in E; discriminate).
  exists m, g'. split; [reflexivity|].
  destruct (X12_percent_threshold 0 _ _ _ _ E) as (H & _).
  assert (Hkib : MemTotalKiB m = 16384)
    by (vm_compute in E; injection E as <- _; reflexivity).
  rewrite Hkib in H.
  change (available_kib 0 (c_str (fread (readable meminfo_recent))))
    with 8192 in H.
  apply H. lia.
Defined.

(** ** The status line *)

Lemma digit_char_spec (d : Z) :
  0 <= d <= 9 ->
  digit_val (digit_char d) = d /\ isdigit (digit_char d) = true.
Proof.
  intros H.
  assert (Hd : d = 0 \/ d = 1 \/ d = 2 \/ d = 3 \/ d = 4 \/ d = 5 \/
               d = 6 \/ d = 7 \/ d = 8 \/ d = 9) by lia.
  repeat (destruct Hd as [->|Hd]; [split; reflexivity|]).
  subst d. split; reflexivity.
Qed.

Lemma decimal_snoc (ds : cstring) (d : ascii) :
  decimal (ds ++ [d]) = 10 * decimal ds + digit_val d.
Proof. unfold decimal. now rewrite fold_left_app. Qed.

Lemma decimal_digits_spec (fuel : nat) :
  forall n acc, 0 <= n < 10 ^ (Z.of_nat fuel + 1) ->
  exists ds,
    decimal_digits fuel n acc = ds ++ acc /\
    decimal ds = n /\ ds <> [] /\
    Forall (fun c => isdigit c = true) ds /\
    forall k, 1 <= k -> n < 10 ^ k -> Z.of_nat (List.length ds) <= k.
Proof.
  assert (Hone : forall n acc, 0 <= n < 10 ->
            exists ds,
              digit_char (n mod 10) :: acc = ds ++ acc /\
              decimal ds = n /\ ds <> [] /\
              Forall (fun c => isdigit c = true) ds /\
              forall k, 1 <= k -> n < 10 ^ k ->
                        Z.of_nat (List.length ds) <= k).
  { intros n acc Hn. rewrite Z.mod_small by lia.
    destruct (digit_char_spec n ltac:(lia)) as [Hval Hdig].
    exists [digit_char n].
    split; [reflexivity|]. split; [|split; [discriminate|split]].
    - unfold decimal. cbn [fold_left]. rewrite Hval. lia.
    - now constructor.
    - intros k Hk _. cbn [List.length]. lia. }
  induction fuel as [|fuel IH]; intros n acc Hn.
  - simpl decimal_digits. apply Hone. simpl in Hn. lia.
  - cbn [decimal_digits]. destruct (Z.ltb_spec n 10) as [Hsmall|Hbig].
    + apply Hone. lia.
    + assert (Hdiv : 0 <= n / 10 < 10 ^ (Z.of_nat fuel + 1)).
      { split; [apply Z.div_pos; lia|].
        apply Z.div_lt_upper_bound; [lia|].
        replace (Z.of_nat (S fuel) + 1) with (Z.succ (Z.of_nat fuel + 1))
          in Hn by lia.
        rewrite Z.pow_succ_r in Hn by lia. lia. }
      destruct (IH (n / 10) (digit_char (n mod 10) :: acc) Hdiv)
        as (ds & E & Hval & Hne & Hdig & Hlen).
      pose proof (Z.mod_pos_bound n 10 ltac:(lia)) as Hmod.
      destruct (digit_char_spec (n mod 10) ltac:(lia)) as [Hv0 Hd0].
      exists (ds ++ [digit_char (n mod 10)]).
      rewrite E, <- app_assoc. split; [reflexivity|].
      split; [|split; [|split]].
      * rewrite decimal_snoc, Hval, Hv0.
        pose proof (Z.div_mod n 10 ltac:(lia)). lia.
      * destruct ds; discriminate.
      * apply Forall_app. split; [assumption|]. now constructor.
      * intros k Hk Hnk. rewrite length_app. simpl List.length.
        assert (Hk2 : 2 <= k).
        { destruct (Z.eq_dec k 1) as [->|]; [|lia].
          change (10 ^ 1) with 10 in Hnk. lia. }
        assert (Hdk : n / 10 < 10 ^ (k - 1)).
        { apply Z.div_lt_upper_bound; [lia|].
          replace k with (Z.succ (k - 1)) in Hnk by lia.
          rewrite Z.pow_succ_r in Hnk by lia. lia. }
        specialize (Hlen (k - 1) ltac:(lia) Hdk). lia.
Qed.

Lemma log2_fuel (n : Z) : 0 <= n -> n < 10 ^ (Z.log2 n + 1).
Proof.
  intros Hn. destruct (Z.eq_dec n 0) as [->|Hnz]; [reflexivity|].
  pose proof (Z.log2_spec n ltac:(lia)) as [_ Hhi].
  pose proof (Z.log2_nonneg n) as Hlog.
  assert (2 ^ Z.succ (Z.log2 n) <= 10 ^ Z.succ (Z.log2 n))
    by (apply Z.pow_le_mono_l; lia).
  replace (Z.log2 n + 1) with (Z.succ (Z.log2 n)) by lia. lia.
Qed.

(** What [%d] prints is an optional minus sign and the digits of the
    number. *)
Lemma print_d_spec (z : Z) :
  exists sg k ds,
    print_d z = sg ++ ds /\ sign_text sg k /\ ds <> [] /\
    Forall (fun c => isdigit c = true) ds /\ z = k * decimal ds /\
    (sg = [] \/ sg = [minus_sign]) /\
    (0 <= z -> sg = [] /\
               forall w, 1 <= w -> z < 10 ^ w ->
                         Z.of_nat (List.length ds) <= w).
Proof.
  unfold print_d.
  assert (Hfuel : 0 <= Z.abs z
                  < 10 ^ (Z.of_nat (Z.to_nat (Z.log2 (Z.abs z))) + 1)).
  { rewrite Z2Nat.id by apply Z.log2_nonneg.
    split; [lia|]. apply log2_fuel. lia. }
  destruct (decimal_digits_spec _ (Z.abs z) [] Hfuel)
    as (ds & E & Hval & Hne & Hdig & Hlen).
  rewrite E, app_nil_r.
  destruct (Z.ltb_spec z 0) as [Hneg|Hpos].
  - exists [minus_sign], (-1), ds. repeat split; auto; try constructor; lia.
  - exists [], 1, ds. repeat split; auto; try constructor; try lia.
    intros w Hw Hz. apply Hlen; lia.
Qed.

Lemma print_wd_integer (w : nat) (z : Z) (tl : cstring) :
  no_digit_ahead tl -> integer_then (print_wd w z ++ tl) z tl.
Proof.
  intros Htl.
  destruct (print_d_spec z) as (sg & k & ds & E & Hsg & Hne & Hdig & Hz & _).
  exists (repeat space (w - List.length (print_d z))), sg, k, ds.
  unfold print_wd. rewrite E, <- !app_assoc.
  repeat split; auto.
  apply Forall_forall. intros c Hc. apply repeat_spec in Hc. now subst c.
Qed.

Lemma print_wd_chars (w : nat) (z : Z) (c : ascii) :
  In c (print_wd w z) ->
  c = space \/ c = minus_sign \/ isdigit c = true.
Proof.
  destruct (print_d_spec z) as (sg & k & ds & E & _ & _ & Hdig & _ & Hsg & _).
  unfold print_wd. rewrite E. intros Hin.
  apply in_app_or in Hin as [Hin|Hin].
  - left. now apply repeat_spec in Hin.
  - apply in_app_or in Hin as [Hin|Hin].
    + destruct Hsg as [->| ->]; [destruct Hin|].
      destruct Hin as [<-|[]]. auto.
    + right. right. rewrite Forall_forall in Hdig. now apply Hdig.
Qed.

Lemma print_wd_no_s (w : nat) (z : Z) : ~ In "s"%char (print_wd w z).
Proof.
  intros Hin. apply print_wd_chars in Hin as [Hc|[Hc|Hc]];
    vm_compute in Hc; discriminate.
Qed.

(** Settles a goal from [H : In c text] for a literal text without [c]. *)
Ltac no_s_in_text H :=
  vm_compute in H;
  repeat (destruct H as [H|H]; [discriminate|]);
  exact H.

Lemma print_wd_length (w : nat) (z : Z) :
  (w <= List.length (print_wd w z))%nat /\
  (0 <= z < 10 ^ Z.of_nat w -> (1 <= w)%nat ->
   List.length (print_wd w z) = w).
Proof.
  unfold print_wd. rewrite length_app, repeat_length. split; [lia|].
  intros [Hz Hw] Hw1.
  destruct (print_d_spec z) as (sg & k & ds & E & _ & _ & _ & _ & _ & Hpos).
  destruct (Hpos Hz) as [-> Hlen]. rewrite E. simpl.
  specialize (Hlen (Z.of_nat w) ltac:(lia) Hw). lia.
Qed.

Lemma first_occurrence_fresh (c : ascii) (label pre post : cstring) :
  ~ In c pre ->
  first_occurrence (c :: label) (pre ++ (c :: label) ++ post) pre post.
Proof.
  intros Hfresh. split; [reflexivity|].
  intros pre' post' E.
  apply app_eq_app in E as [l [[E1 E2]|[E1 E2]]].
  - destruct l as [|x l].
    + rewrite app_nil_r in E1. subst. lia.
    + simpl in E2. injection E2 as <- _.
      exfalso. apply Hfresh. rewrite E1. apply in_or_app. right. now left.
  - rewrite E1, length_app. lia.
Qed.

(** X13. The status line can be read back with the extractor of this
    file: for a snapshot whose fields are [int]s, [print_mem_stats] hands
    to [out_func] a line in which [get_entry] finds the available MiB
    after "mem avail:" and the free swap MiB after "swap free:". *)
Theorem X13_status_line_read_back (e : Z) (m : meminfo_t) (g : globals) :
  in_int (MemAvailableMiB m) = true -> in_int (SwapFreeMiB m) = true ->
  print_mem_stats (fun line => get_entry e (str "mem avail:") line g) m
  = Returns (MemAvailableMiB m) g /\
  print_mem_stats (fun line => get_entry e (str "swap free:") line g) m
  = Returns (SwapFreeMiB m) g.
Proof.
  intros Hav Hsf.
  assert (Hlong : forall z, in_int z = true -> in_long z = true).
  { unfold in_int, in_long, INT_MIN, INT_MAX, LONG_MIN, LONG_MAX.
    intros z H. apply andb_true_iff in H as [H1 H2].
    apply Z.leb_le in H1, H2.
    apply andb_true_iff; split; apply Z.leb_le; lia. }
  unfold print_mem_stats, status_line. split.
  - apply get_entry_field; [|now apply Hlong].
    exists [], (space :: print_wd 5 (MemAvailableMiB m)
                ++ str " of " ++ print_wd 5 (MemTotalMiB m)
                ++ str " MiB (" ++ print_wd 2 (MemAvailablePercent m)
                ++ str " %), swap free: " ++ print_wd 4 (SwapFreeMiB m)
                ++ str " of " ++ print_wd 4 (SwapTotalMiB m)
                ++ str " MiB (" ++ print_wd 2 (SwapFreePercent m)
                ++ str " %)" ++ [newline]).
    split.
    + split; [reflexivity|]. intros; simpl; lia.
    + apply integer_text_then. eexists.
      destruct (print_wd_integer 5 (MemAvailableMiB m)
                  (str " of " ++ print_wd 5 (MemTotalMiB m)
                   ++ str " MiB (" ++ print_wd 2 (MemAvailablePercent m)
                   ++ str " %), swap free: " ++ print_wd 4 (SwapFreeMiB m)
                   ++ str " of " ++ print_wd 4 (SwapTotalMiB m)
                   ++ str " MiB (" ++ print_wd 2 (SwapFreePercent m)
                   ++ str " %)" ++ [newline]) eq_refl)
        as (ws & sg & k & ds & E & Hws & H).
      exists (space :: ws), sg, k, ds. split; [|split; [|exact H]].
      * cbn [app]. f_equal. exact E.
      * constructor; [reflexivity|assumption].
  - apply get_entry_field; [|now apply Hlong].
    set (pre := str "mem avail: " ++ print_wd 5 (MemAvailableMiB m)
                ++ str " of " ++ print_wd 5 (MemTotalMiB m)
                ++ str " MiB (" ++ print_wd 2 (MemAvailablePercent m)
                ++ str " %), ").
    set (post := space :: print_wd 4 (SwapFreeMiB m)
                 ++ str " of " ++ print_wd 4 (SwapTotalMiB m)
                 ++ str " MiB (" ++ print_wd 2 (SwapFreePercent m)
                 ++ str " %)" ++ [newline]).
    exists pre, post. split.
    + assert (Hline :
        str "mem avail: " ++ print_wd 5 (MemAvailableMiB m)
        ++ str " of " ++ print_wd 5 (MemTotalMiB m)
        ++ str " MiB (" ++ print_wd 2 (MemAvailablePercent m)
        ++ str " %), swap free: " ++ print_wd 4 (SwapFreeMiB m)
        ++ str " of " ++ print_wd 4 (SwapTotalMiB m)
        ++ str " MiB (" ++ print_wd 2 (SwapFreePercent m)
        ++ str " %)" ++ [newline]
        = pre ++ str "swap free:" ++ post).
      { unfold pre, post. rewrite <- !app_assoc. reflexivity. }
      rewrite Hline. apply first_occurrence_fresh.
      unfold pre. intros Hin.
      apply in_app_or in Hin as [Hin|Hin]; [no_s_in_text Hin|].
      apply in_app_or in Hin as [Hin|Hin]; [now apply print_wd_no_s in Hin|].
      apply in_app_or in Hin as [Hin|Hin]; [no_s_in_text Hin|].
      apply in_app_or in Hin as [Hin|Hin]; [now apply print_wd_no_s in Hin|].
      apply in_app_or in Hin as [Hin|Hin]; [no_s_in_text Hin|].
      apply in_app_or in Hin as [Hin|Hin]; [now apply print_wd_no_s in Hin|].
      no_s_in_text Hin.
    + apply integer_text_then. eexists.
      destruct (print_wd_integer 4 (SwapFreeMiB m)
                  (str " of " ++ print_wd 4 (SwapTotalMiB m)
                   ++ str " MiB (" ++ print_wd 2 (SwapFreePercent m)
                   ++ str " %)" ++ [newline]) eq_refl)
        as (ws & sg & k & ds & E & Hws & H).
      exists (space :: ws), sg, k, ds. split; [|split; [|exact H]].
      * unfold post. cbn [app]. f_equal. exact E.
      * constructor; [reflexivity|assumption].
Qed.

Lemma X13_status_line_read_back_witness :
  print_mem_stats
    (fun line => get_entry 0 (str "mem avail:") line startup) snapshot_sample
  = Returns 5259 startup.
Proof.
  destruct (X13_status_line_read_back 0 snapshot_sample startup
              eq_refl eq_refl) as [H _].
  exact H.
Defined.

(** X14. The status line has at least 73 characters and ends with a
    newline; it has exactly 73, each number in its column, when the MiB
    values of memory are in [0, 10^5), those of swap in [0, 10^4) and the
    percentages in [0, 100). *)
Theorem X14_status_line_layout (m : meminfo_t) :
  (73 <= List.length (print_mem_stats (fun line => line) m))%nat /\
  (exists body, print_mem_stats (fun line => line) m = body ++ [newline]) /\
  (0 <= MemAvailableMiB m < 10 ^ 5 -> 0 <= MemTotalMiB m < 10 ^ 5 ->
   0 <= MemAvailablePercent m < 10 ^ 2 ->
   0 <= SwapFreeMiB m < 10 ^ 4 -> 0 <= SwapTotalMiB m < 10 ^ 4 ->
   0 <= SwapFreePercent m < 10 ^ 2 ->
   List.length (print_mem_stats (fun line => line) m) = 73%nat).
Proof.
  unfold print_mem_stats, status_line.
  split; [|split].
  - rewrite !length_app.
    pose proof (proj1 (print_wd_length 5 (MemAvailableMiB m))).
    pose proof (proj1 (print_wd_length 5 (MemTotalMiB m))).
    pose proof (proj1 (print_wd_length 2 (MemAvailablePercent m))).
    pose proof (proj1 (print_wd_length 4 (SwapFreeMiB m))).
    pose proof (proj1 (print_wd_length 4 (SwapTotalMiB m))).
    pose proof (proj1 (print_wd_length 2 (SwapFreePercent m))).
    change (List.length (str "mem avail: ")) with 11%nat.
    change (List.length (str " of ")) with 4%nat.
    change (List.length (str " MiB (")) with 6%nat.
    change (List.length (str " %), swap free: ")) with 16%nat.
    change (List.length (str " %)")) with 3%nat.
    change (List.length [newline]) with 1%nat. lia.
  - eexists. rewrite !app_assoc. reflexivity.
  - intros H1 H2 H3 H4 H5 H6. rewrite !length_app.
    rewrite (proj2 (print_wd_length 5 (MemAvailableMiB m)) H1) by lia.
    rewrite (proj2 (print_wd_length 5 (MemTotalMiB m)) H2) by lia.
    rewrite (proj2 (print_wd_length 2 (MemAvailablePercent m)) H3) by lia.
    rewrite (proj2 (print_wd_length 4 (SwapFreeMiB m)) H4) by lia.
    rewrite (proj2 (print_wd_length 4 (SwapTotalMiB m)) H5) by lia.
    rewrite (proj2 (print_wd_length 2 (SwapFreePercent m)) H6) by lia.
    reflexivity.
Qed.

Lemma X14_status_line_layout_witness :
  List.length (print_mem_stats (fun line => line) snapshot_sample) = 73%nat.
Proof.
  destruct (X14_status_line_layout snapshot_sample) as (_ & _ & H).
  apply H; vm_compute; split; congruence.
Defined.

(** ** Labels are substrings *)

(** X15. [get_entry] matches a label anywhere, not at the start of a line:
    in a blob whose first C stands in "SwapCached:", the label "Cached:" is
    found there, so [get_entry] returns for "Cached:" the integer that
    follows "SwapCached:", the value it returns for "SwapCached:"
    itself. *)
Theorem X15_label_inside_label (e : Z) (pre post : cstring) (v : Z)
    (g : globals) :
  ~ In "C"%char pre -> ~ In "S"%char pre ->
  integer_text post v -> in_long v = true ->
  get_entry e (str "Cached:") (pre ++ str "SwapCached:" ++ post) g
  = Returns v g /\
  get_entry e (str "SwapCached:") (pre ++ str "SwapCached:" ++ post) g
  = Returns v g.
Proof.
  intros HC HS Htext Hv. split.
  - apply get_entry_field; [|assumption].
    exists (pre ++ str "Swap"), post. split; [|assumption].
    replace (pre ++ str "SwapCached:" ++ post)
      with ((pre ++ str "Swap") ++ str "Cached:" ++ post)
      by (rewrite <- app_assoc; reflexivity).
    apply (first_occurrence_fresh "C"%char (str "ached:")).
    intros Hin. apply in_app_or in Hin as [Hin|Hin]; [contradiction|].
    no_s_in_text Hin.
  - apply get_entry_field; [|assumption].
    exists pre, post. split; [|assumption].
    now apply (first_occurrence_fresh "S"%char (str "wapCached:")).
Qed.

Lemma X15_label_inside_label_witness :
  get_entry 0 (str "Cached:")
    (text ["MemFree: 100 kB"%string] ++ str "SwapCached:"
     ++ text [" 7 kB"; "Cached: 50 kB"]%string) startup
  = Returns 7 startup.
Proof.
  apply (X15_label_inside_label 0 (text ["MemFree: 100 kB"%string])
           (text [" 7 kB"; "Cached: 50 kB"]%string) 7 startup).
  - intros Hin. no_s_in_text Hin.
  - intros Hin. no_s_in_text Hin.
  - exists [space], [], 1, (str "7"),
      (str " kB" ++ newline :: text ["Cached: 50 kB"%string]).
    repeat split; try constructor; try discriminate; repeat constructor.
  - reflexivity.
Defined.
